(** * UBID codec ([buildingid/code.py]): a shallow embedding and its properties

    The development follows the module top to bottom: the identifier
    pattern [RE_PATTERN_] and the matcher behind [re.match], the validator
    ([isValid_], [isValid]), the decoder and the encoder, and the geometry of
    [CodeArea] (area, intersection, jaccard, resize).  A last part covers
    the quadkeys of [pymodule/gis_helpers.py].

    Modelling conventions.
    - A Python [float] is idealised as an exact rational ([Q]); comparisons
      are the decidable ones of [Q].  A division by a zero float raises
      [ZeroDivisionError], as in Python.
    - A Python [int] is [Z], unbounded.
    - A Python [str] is a [string]; the pattern only ever matches ASCII
      characters (no letter of the code alphabet has a non-ASCII case
      variant), so a character outside ASCII is any [ascii] above 127.
    - A raised exception is the [Raise] constructor of [result]; [None] is
      [None] of [option].
    - The Open Location Code library and [buildingid.validators] are
      collaborators: they are the fields of the class [GridEngine]. *)

From stdpp Require Import gmap.
From Stdlib Require Import List String Ascii Bool Arith ZArith NArith QArith Qround Qminmax Lia Lqa.
From Stdlib Require Import DecimalString DecimalN DecimalFacts DecimalPos.
Import ListNotations.

Set Implicit Arguments.

Local Open Scope string_scope.
Local Open Scope Q_scope.

(** ** Exceptions and results *)

Inductive exn : Type :=
| ValueError
| AssertionError
| ZeroDivisionError.

Inductive result (A : Type) : Type :=
| Return (a : A)
| Raise (e : exn).

Arguments Return {A} a.
Arguments Raise {A} e.

Definition bind {A B : Type} (m : result A) (f : A -> result B) : result B :=
  match m with
  | Return a => f a
  | Raise e => Raise e
  end.

(** The [assert] statement. *)
Definition assert (c : bool) : result unit :=
  if c then Return tt else Raise AssertionError.

Notation "'do' x <- m ; k" := (bind m (fun x => k))
  (at level 10, x name, m at level 100, k at level 200).
Notation "'check' c ; k" := (bind (assert c) (fun _ => k))
  (at level 10, c at level 100, k at level 200).


(** [a / b] on floats. *)
Definition fdiv (a b : Q) : result Q :=
  if Qeq_bool b 0 then Raise ZeroDivisionError else Return (a / b).

(** [a > b], [a >= b] *)
Definition Qgtb (a b : Q) : bool := negb (Qle_bool a b).
Definition Qgeb (a b : Q) : bool := Qle_bool b a.

(** Python's [max(a, b)] and [min(a, b)]: the first argument is kept unless
    the second is strictly better. *)
Definition pymax (a b : Q) : Q := if Qgtb b a then b else a.
Definition pymin (a b : Q) : Q := if Qgtb a b then b else a.

(** ** Areas *)

(** [openlocationcode.CodeArea]: the cell of a grid code. *)
Record OlcArea : Type := mkOlcArea {
  olc_latitudeLo : Q;
  olc_longitudeLo : Q;
  olc_latitudeHi : Q;
  olc_longitudeHi : Q;
  olc_codeLength : Z
}.

(** [buildingid.code.CodeArea]: the fields of the base class, set by
    the constructor of the base class, and the [centroid]. *)
Record CodeArea : Type := mkCodeArea {
  centroid : OlcArea;
  latitudeLo : Q;
  longitudeLo : Q;
  latitudeHi : Q;
  longitudeHi : Q;
  codeLength : Z
}.

(** [CodeArea.area] *)
Definition area (self : CodeArea) : Q :=
  let height := latitudeHi self - latitudeLo self in
  let width := longitudeHi self - longitudeLo self in
  height * width.

(** [CodeArea.intersection]; [other] may be [None]. *)
Definition intersection (self : CodeArea) (other : option CodeArea)
  : option (Q * Q * Q * Q) :=
  match other with
  | None => None
  | Some other =>
      let latLo := pymax (latitudeLo self) (latitudeLo other) in
      let latHi := pymin (latitudeHi self) (latitudeHi other) in
      let lonLo := pymax (longitudeLo self) (longitudeLo other) in
      let lonHi := pymin (longitudeHi self) (longitudeHi other) in
      if Qgtb latLo latHi || Qgtb lonLo lonHi then None
      else Some (lonLo, latLo, lonHi, latHi)
  end.

(** [CodeArea.jaccard]; [other.area] on [None] is never reached, since
    [intersection] has returned [None] before. *)
Definition jaccard (self : CodeArea) (other : option CodeArea)
  : result (option Q) :=
  match intersection self other with
  | None => Return None
  | Some (b0, b1, b2, b3) =>
      let a := (b3 - b1) * (b2 - b0) in
      let other_area := match other with Some o => area o | None => 0 end in
      do j <- fdiv a (area self + other_area - a);
      Return (Some j)
  end.

(** [CodeArea.resize] *)
Definition resize (self : CodeArea) : CodeArea :=
  let halfHeight :=
    (olc_latitudeHi (centroid self) - olc_latitudeLo (centroid self)) / 2 in
  let halfWidth :=
    (olc_longitudeHi (centroid self) - olc_longitudeLo (centroid self)) / 2 in
  mkCodeArea (centroid self)
    (latitudeLo self + halfHeight) (longitudeLo self + halfWidth)
    (latitudeHi self - halfHeight) (longitudeHi self - halfWidth)
    (codeLength self).

(** ** The pattern language of [re] used by [RE_PATTERN_]

    Only the constructs the pattern is built from: the anchors, character
    classes (a literal is a class of one character), concatenation,
    alternation, the optional group, a bounded or unbounded greedy
    repetition of a class, and the numbered capturing group.  The flag
    [re.IGNORECASE] is built into class membership. *)

Inductive citem : Type :=
| CChar (c : ascii)
| CRange (lo hi : ascii).

Definition cclass : Type := list citem.

Inductive regex : Type :=
| Eps
| Bol
| Eol
| Cls (cs : cclass)
| Cat (r1 r2 : regex)
| Alt (r1 r2 : regex)
| Opt (r : regex)
| Rep (cs : cclass) (lo : nat) (hi : option nat)
| Grp (n : nat) (r : regex).

Definition is_upper (c : ascii) : bool :=
  (65 <=? nat_of_ascii c)%nat && (nat_of_ascii c <=? 90)%nat.
Definition is_lower (c : ascii) : bool :=
  (97 <=? nat_of_ascii c)%nat && (nat_of_ascii c <=? 122)%nat.
Definition lower (c : ascii) : ascii :=
  if is_upper c then ascii_of_nat (nat_of_ascii c + 32) else c.
Definition upper (c : ascii) : ascii :=
  if is_lower c then ascii_of_nat (nat_of_ascii c - 32) else c.

Definition in_range (lo hi x : ascii) : bool :=
  (nat_of_ascii lo <=? nat_of_ascii x)%nat && (nat_of_ascii x <=? nat_of_ascii hi)%nat.

Definition in_item (x : ascii) (it : citem) : bool :=
  match it with
  | CChar c => Ascii.eqb (lower x) (lower c)
  | CRange lo hi => in_range lo hi x || in_range lo hi (lower x) || in_range lo hi (upper x)
  end.

Definition in_class (cs : cclass) (x : ascii) : bool := existsb (in_item x) cs.

(** The groups of a match object, most recent first. *)
Definition captures : Type := list (nat * list ascii).

(** What remains to be matched after a sub-pattern: the rest of the
    subject, the position reached, the groups so far. *)
Definition cont : Type := list ascii -> nat -> captures -> option captures.

(** Greedy repetition of a class, between [lo] and [hi] times: take one more
    character while allowed, and give back on failure of what follows. *)
Fixpoint rep_match (cs : cclass) (lo : nat) (hi : option nat)
    (rest : list ascii) (pos : nat) (caps : captures) (k : cont) {struct rest}
  : option captures :=
  let stop := if (lo =? 0)%nat then k rest pos caps else None in
  match hi with
  | Some O => stop
  | _ =>
      match rest with
      | x :: rest' =>
          if in_class cs x then
            match rep_match cs (Nat.pred lo) (option_map Nat.pred hi) rest' (S pos) caps k with
            | Some m => Some m
            | None => stop
            end
          else stop
      | [] => stop
      end
  end.

(** The backtracking matcher: alternatives are tried left to right, and the
    first complete match wins.  [$] matches at the end of the subject and
    also just before a newline that ends it. *)
Fixpoint rmatch (r : regex) (rest : list ascii) (pos : nat) (caps : captures)
    (k : cont) {struct r} : option captures :=
  match r with
  | Eps => k rest pos caps
  | Bol => if (pos =? 0)%nat then k rest pos caps else None
  | Eol =>
      match rest with
      | [] => k rest pos caps
      | [c] => if Ascii.eqb c "010" then k rest pos caps else None
      | _ => None
      end
  | Cls cs =>
      match rest with
      | x :: rest' => if in_class cs x then k rest' (S pos) caps else None
      | [] => None
      end
  | Cat r1 r2 =>
      rmatch r1 rest pos caps (fun rest' pos' caps' => rmatch r2 rest' pos' caps' k)
  | Alt r1 r2 =>
      match rmatch r1 rest pos caps k with
      | Some m => Some m
      | None => rmatch r2 rest pos caps k
      end
  | Opt r1 =>
      match rmatch r1 rest pos caps k with
      | Some m => Some m
      | None => k rest pos caps
      end
  | Rep cs lo hi => rep_match cs lo hi rest pos caps k
  | Grp n r1 =>
      rmatch r1 rest pos caps
        (fun rest' pos' caps' => k rest' pos' ((n, firstn (pos' - pos) rest) :: caps'))
  end.

(** [pattern.match(s)]: anchored at position 0, the end is left free. *)
Definition re_match (r : regex) (s : string) : option captures :=
  rmatch r (list_ascii_of_string s) 0 [] (fun _ _ caps => Some caps).

Fixpoint lookup_group (m : captures) (n : nat) : option (list ascii) :=
  match m with
  | [] => None
  | (i, w) :: m' => if (i =? n)%nat then Some w else lookup_group m' n
  end.

(** [match.group(n)].  Every group of [RE_PATTERN_] takes part in every
    match, so the [None] of a group that did not take part is never seen. *)
Definition group (m : captures) (n : nat) : string :=
  match lookup_group m n with
  | Some w => string_of_list_ascii w
  | None => ""
  end.

(** ** The identifier pattern *)

(** Constants published by the Open Location Code library. *)
Definition CODE_ALPHABET_ : string := "23456789CFGHJMPQRVWX".
Definition OLC_SEPARATOR_ : ascii := "+"%char.
Definition PADDING_CHARACTER_ : ascii := "0"%char.
Definition PAIR_CODE_LENGTH_ : Z := 10%Z.

Definition SEPARATOR_ : ascii := "-"%char.

(** [re.escape(c)]: the character itself. *)
Definition Lit (c : ascii) : regex := Cls [CChar c].

(** A bracket expression over the escaped characters of [s]. *)
Definition bracket (s : string) : cclass := map CChar (list_ascii_of_string s).

(** The pieces of a pattern joined in order. *)
Definition join (rs : list regex) : regex := fold_right Cat Eps rs.

Definition PAD : cclass := [CChar PADDING_CHARACTER_].
Definition ALPHA : cclass := bracket CODE_ALPHABET_.

(** The optional run of two or more padding characters after the [+]. *)
Definition padding_tail : regex := Opt (Rep PAD 2 None).

(** [k] padding characters, the [+], and what may follow. *)
Definition padded_block (k : nat) : regex :=
  join [Rep PAD k (Some k); Lit OLC_SEPARATOR_; padding_tail].

(** A pair of code letters. *)
Definition pair : regex := Rep ALPHA 2 (Some 2%nat).

(** What may follow the [+] of a full code. *)
Definition full_tail : regex :=
  Opt (Alt (Rep PAD 2 None) (join [Rep ALPHA 2 None; Rep PAD 0 None])).

(** Group 1 of the pattern, nested as in the source: after the first two
    letters, six paddings, or a pair and then four paddings, or a second pair
    and then two paddings, or a third pair, the [+] and the tail. *)
Definition gridcode_re : regex :=
  join [ Cls (bracket (substring 0 9 CODE_ALPHABET_));
         Cls (bracket (substring 0 18 CODE_ALPHABET_));
         Alt (padded_block 6)
             (join [pair;
                    Alt (padded_block 4)
                        (join [pair;
                               Alt (padded_block 2)
                                   (join [pair; Lit OLC_SEPARATOR_; full_tail])])]) ].

(** An extent group: a lone zero, or a digit from 1 to 9 followed by any
    number of digits. *)
Definition extent_re : regex :=
  Alt (Lit "0") (join [Cls [CRange "1" "9"]; Rep [CRange "0" "9"] 0 None]).

Definition RE_GROUP_OPENLOCATIONCODE_ : nat := 1.
Definition RE_GROUP_NORTH_ : nat := 2.
Definition RE_GROUP_EAST_ : nat := 3.
Definition RE_GROUP_SOUTH_ : nat := 4.
Definition RE_GROUP_WEST_ : nat := 5.

Definition RE_PATTERN_ : regex :=
  join [ Bol;
         Grp 1 gridcode_re;
         Lit SEPARATOR_; Grp 2 extent_re;
         Lit SEPARATOR_; Grp 3 extent_re;
         Lit SEPARATOR_; Grp 4 extent_re;
         Lit SEPARATOR_; Grp 5 extent_re;
         Eol ].

(** ** Collaborators

    [openlocationcode] is an external package and [buildingid/validators.py]
    is not part of the sources at hand: the codec is parametric in them. *)

Class GridEngine : Type := {
  (** [openlocationcode.isValid] *)
  olc_isValid : string -> bool;
  (** [openlocationcode.decode] *)
  olc_decode : string -> result OlcArea;
  (** [openlocationcode.encode(latitude, longitude, codeLength)] *)
  olc_encode : Q -> Q -> Z -> result string;
  (** [buildingid.validators] *)
  isValidCodeArea : OlcArea -> bool;
  isValidCodeLength : Z -> bool;
  isValidLatitude : Q -> Q -> bool;
  isValidLongitude : Q -> Q -> bool;
  isValidLatitudeCenter : Q -> Q -> Q -> bool;
  isValidLongitudeCenter : Q -> Q -> Q -> bool
}.

(** ** Text and numbers *)

Definition is_digit (c : ascii) : bool := in_range "0" "9" c.

Definition digit_value (c : ascii) : Z := Z.of_nat (nat_of_ascii c - 48).

Fixpoint int_acc (acc : Z) (w : list ascii) : option Z :=
  match w with
  | [] => Some acc
  | c :: w' => if is_digit c then int_acc (10 * acc + digit_value c)%Z w' else None
  end.

(** [int(s)] on a string of decimal digits, of any length; any other string
    is a [ValueError] here (the groups of a match are digit strings). *)
Definition py_int (s : string) : result Z :=
  match list_ascii_of_string s with
  | [] => Raise ValueError
  | w => match int_acc 0 w with
         | Some n => Return n
         | None => Raise ValueError
         end
  end.

(** The decimal numeral of a natural number. *)
Definition dec (n : N) : string := NilEmpty.string_of_uint (N.to_uint n).

(** Rounding to the nearest integer, ties to even. *)
Definition round_half_even (q : Q) : Z :=
  let f := Qfloor q in
  match Qcompare (q - inject_Z f) (1 # 2) with
  | Lt => f
  | Gt => (f + 1)%Z
  | Eq => if Z.even f then f else (f + 1)%Z
  end.

(** The conversion [%.0f]: no fraction digits, every integer digit. *)
Definition format_0f (q : Q) : string :=
  if Qgeb q 0 then dec (Z.to_N (round_half_even q))
  else "-" ++ dec (Z.to_N (round_half_even (- q))).

(** [FORMAT_STRING_ % (olc, north, east, south, west)] *)
Definition FORMAT_STRING_ (olc : string) (north east south west : Q) : string :=
  olc ++ "-" ++ format_0f north ++ "-" ++ format_0f east
      ++ "-" ++ format_0f south ++ "-" ++ format_0f west.

(** ** The codec *)

Section Codec.

Context {E : GridEngine}.

(** [isValid_]: the match object, or [None]. *)
Definition isValid_ (code : option string) : option captures :=
  match code with
  | None => None
  | Some s =>
      match re_match RE_PATTERN_ s with
      | None => None
      | Some m =>
          if negb (olc_isValid (group m RE_GROUP_OPENLOCATIONCODE_)) then None
          else Some m
      end
  end.

(** [isValid] *)
Definition isValid (code : option string) : bool :=
  match isValid_ code with
  | None => false
  | Some _ => true
  end.

(** [decode] *)
Definition decode (code : option string) : result CodeArea :=
  match isValid_ code with
  | None => Raise ValueError
  | Some m =>
      do codeAreaCenter <- olc_decode (group m RE_GROUP_OPENLOCATIONCODE_);
      check isValidCodeArea codeAreaCenter;
      let codeAreaCenterHeight :=
        olc_latitudeHi codeAreaCenter - olc_latitudeLo codeAreaCenter in
      check Qgeb codeAreaCenterHeight 0;
      let codeAreaCenterWidth :=
        olc_longitudeHi codeAreaCenter - olc_longitudeLo codeAreaCenter in
      check Qgeb codeAreaCenterWidth 0;
      do south <- py_int (group m RE_GROUP_SOUTH_);
      let latLo := olc_latitudeLo codeAreaCenter - inject_Z south * codeAreaCenterHeight in
      do north <- py_int (group m RE_GROUP_NORTH_);
      let latHi := olc_latitudeHi codeAreaCenter + inject_Z north * codeAreaCenterHeight in
      check isValidLatitude latLo latHi;
      do west <- py_int (group m RE_GROUP_WEST_);
      let lonLo := olc_longitudeLo codeAreaCenter - inject_Z west * codeAreaCenterWidth in
      do east <- py_int (group m RE_GROUP_EAST_);
      let lonHi := olc_longitudeHi codeAreaCenter + inject_Z east * codeAreaCenterWidth in
      check isValidLongitude lonLo lonHi;
      Return (mkCodeArea codeAreaCenter latLo lonLo latHi lonHi
                         (olc_codeLength codeAreaCenter))
  end.

(** [encode] *)
Definition encode (latLo lonLo latHi lonHi latitudeCenter longitudeCenter : Q)
    (codeLength : Z) : result string :=
  check isValidCodeLength codeLength;
  check isValidLatitudeCenter latLo latHi latitudeCenter;
  check isValidLongitudeCenter lonLo lonHi longitudeCenter;
  do olcNortheast <- olc_encode latHi lonHi codeLength;
  do codeAreaNortheast <- olc_decode olcNortheast;
  check isValidCodeArea codeAreaNortheast;
  do olcSouthwest <- olc_encode latLo lonLo codeLength;
  do codeAreaSouthwest <- olc_decode olcSouthwest;
  check isValidCodeArea codeAreaSouthwest;
  do olcCenter <- olc_encode latitudeCenter longitudeCenter codeLength;
  do codeAreaCenter <- olc_decode olcCenter;
  check isValidCodeArea codeAreaCenter;
  let codeAreaCenterHeight :=
    olc_latitudeHi codeAreaCenter - olc_latitudeLo codeAreaCenter in
  check Qgeb codeAreaCenterHeight 0;
  let codeAreaCenterWidth :=
    olc_longitudeHi codeAreaCenter - olc_longitudeLo codeAreaCenter in
  check Qgeb codeAreaCenterWidth 0;
  do olcCountNorth <-
    fdiv (olc_latitudeHi codeAreaNortheast - olc_latitudeHi codeAreaCenter)
         codeAreaCenterHeight;
  check Qgeb olcCountNorth 0;
  do olcCountSouth <-
    fdiv (olc_latitudeLo codeAreaCenter - olc_latitudeLo codeAreaSouthwest)
         codeAreaCenterHeight;
  check Qgeb olcCountSouth 0;
  do olcCountEast <-
    fdiv (olc_longitudeHi codeAreaNortheast - olc_longitudeHi codeAreaCenter)
         codeAreaCenterWidth;
  check Qgeb olcCountEast 0;
  do olcCountWest <-
    fdiv (olc_longitudeLo codeAreaCenter - olc_longitudeLo codeAreaSouthwest)
         codeAreaCenterWidth;
  check Qgeb olcCountWest 0;
  Return (FORMAT_STRING_ olcCenter olcCountNorth olcCountEast olcCountSouth olcCountWest).

End Codec.

(** ** The grammar of identifiers, as the specification words it

    A grid code, then four groups separated by [-], each a lone [0] or a
    non-zero digit followed by digits.  The grid code has eight places before
    its [+]: code letters, padded with zeros to the right in pairs; a padded
    code may only continue with two or more zeros, a full one also with two
    or more code letters and then zeros.  Written independently of the
    matcher, to be compared with it. *)

(** [s.split(sep)] *)
Fixpoint split_on (sep : ascii) (w : list ascii) : list (list ascii) :=
  match w with
  | [] => [[]]
  | c :: w' =>
      if Ascii.eqb c sep then [] :: split_on sep w'
      else match split_on sep w' with
           | p :: ps => (c :: p) :: ps
           | [] => [[c]]
           end
  end.

(** The longest prefix of characters satisfying [p], and what follows. *)
Fixpoint span (p : ascii -> bool) (w : list ascii) : list ascii * list ascii :=
  match w with
  | c :: w' => if p c then (c :: fst (span p w'), snd (span p w')) else ([], w)
  | [] => ([], [])
  end.

Definition is_code_letter (c : ascii) : bool := in_class ALPHA c.
Definition is_padding (c : ascii) : bool := Ascii.eqb c PADDING_CHARACTER_.

Definition spec_extent (w : list ascii) : bool :=
  match w with
  | [] => false
  | c :: ds =>
      if Ascii.eqb c "0" then match ds with [] => true | _ => false end
      else is_digit c && forallb is_digit ds
  end.

(** After the [+] of a padded code: nothing, or two or more zeros. *)
Definition spec_padded_tail (t : list ascii) : bool :=
  match t with
  | [] => true
  | _ => forallb is_padding t && (2 <=? List.length t)%nat
  end.

(** After the [+] of a full code: nothing, two or more zeros, or two or
    more code letters and then zeros. *)
Definition spec_full_tail (t : list ascii) : bool :=
  match t with
  | [] => true
  | _ =>
      let letters := fst (span is_code_letter t) in
      let zeros := snd (span is_code_letter t) in
      forallb is_padding zeros
      && match letters with
         | [] => (2 <=? List.length zeros)%nat
         | _ => (2 <=? List.length letters)%nat
         end
  end.

Definition spec_gridcode (g : list ascii) : bool :=
  match g with
  | c1 :: c2 :: w =>
      in_class (bracket (substring 0 9 CODE_ALPHABET_)) c1
      && in_class (bracket (substring 0 18 CODE_ALPHABET_)) c2
      && (let letters := fst (span is_code_letter w) in
          let w1 := snd (span is_code_letter w) in
          let zeros := fst (span is_padding w1) in
          match snd (span is_padding w1) with
          | p :: t =>
              Ascii.eqb p OLC_SEPARATOR_
              && (List.length letters + List.length zeros =? 6)%nat
              && Nat.even (List.length letters)
              && match zeros with
                 | [] => spec_full_tail t
                 | _ => spec_padded_tail t
                 end
          | [] => false
          end)
  | _ => false
  end.

Definition spec_ubid (s : string) : bool :=
  match split_on SEPARATOR_ (list_ascii_of_string s) with
  | [g; n; e; so; w] =>
      spec_gridcode g && spec_extent n && spec_extent e
      && spec_extent so && spec_extent w
  | _ => false
  end.

(** The grid code of an identifier: what stands before the first [-]. *)
Definition spec_gridcode_of (s : string) : string :=
  string_of_list_ascii (hd [] (split_on SEPARATOR_ (list_ascii_of_string s))).

(** [s] without one final newline, when it has one. *)
Fixpoint chomp_list (w : list ascii) : list ascii :=
  match w with
  | [] => []
  | [c] => if Ascii.eqb c "010" then [] else [c]
  | c :: w' => c :: chomp_list w'
  end.

Definition chomp (s : string) : string :=
  string_of_list_ascii (chomp_list (list_ascii_of_string s)).

(** ** Objects in a store

    [resize] builds a new object; to speak of what it leaves alone, areas
    are put in a store of objects, where the [centroid] attribute is a
    reference. *)

Module Heap.

Definition loc : Type := nat.

Inductive obj : Type :=
| OlcObj (c : OlcArea)
| AreaObj (centroid_ref : loc) (latLo lonLo latHi lonHi : Q) (len : Z).

(** The area stored at [l], read through its [centroid] reference. *)
Definition view (h : gmap loc obj) (l : loc) : option CodeArea :=
  match h !! l with
  | Some (AreaObj c latLo lonLo latHi lonHi len) =>
      match h !! c with
      | Some (OlcObj cell) => Some (mkCodeArea cell latLo lonLo latHi lonHi len)
      | _ => None
      end
  | _ => None
  end.

(** [CodeArea.resize] on the store: the attributes of [self] and of its
    centroid are read, and the result is allocated at a fresh place.
    [None] stands for the [AttributeError] of a receiver that is not an
    area. *)
Definition resize (h : gmap loc obj) (self : loc) : option (gmap loc obj * loc) :=
  match h !! self with
  | Some (AreaObj c latLo lonLo latHi lonHi len) =>
      match h !! c with
      | Some (OlcObj cell) =>
          let halfHeight := (olc_latitudeHi cell - olc_latitudeLo cell) / 2 in
          let halfWidth := (olc_longitudeHi cell - olc_longitudeLo cell) / 2 in
          let r := fresh (dom h) in
          Some (<[r := AreaObj c (latLo + halfHeight) (lonLo + halfWidth)
                                 (latHi - halfHeight) (lonHi - halfWidth) len]> h, r)
      | _ => None
      end
  | _ => None
  end.

(** The reference held by the [centroid] attribute of the area at [l]. *)
Definition centroid_ref (h : gmap loc obj) (l : loc) : option loc :=
  match h !! l with
  | Some (AreaObj c _ _ _ _ _) => Some c
  | _ => None
  end.

End Heap.

(** ** A grid engine of one code

    The cell of the code of the module's examples, [849VQJH6+95J] (eleven
    digits: 1/40000 of a degree high, 1/32000 wide), and validators.

    Modelled from the spec: [buildingid/validators.py] is not at hand; the
    latitude and longitude checks are those of the decoder's step 5 (bounds
    within [-90, 90] and [-180, 180], low not above high), a center passes
    when it lies between the bounds, a cell when its bounds and its code
    length pass. *)

Definition sample_code : string := "849VQJH6+95J".

Definition sample_cell : OlcArea :=
  mkOlcArea (3777845 # 100000) (-122389625 # 1000000)
            (37778475 # 1000000) (-12238959375 # 100000000) 11.

Definition in_sample_cell (lat lon : Q) : bool :=
  Qle_bool (olc_latitudeLo sample_cell) lat
  && negb (Qle_bool (olc_latitudeHi sample_cell) lat)
  && Qle_bool (olc_longitudeLo sample_cell) lon
  && negb (Qle_bool (olc_longitudeHi sample_cell) lon).

Definition between (lo hi : Q) (a b : Q) : bool :=
  Qle_bool lo a && Qle_bool a b && Qle_bool b hi.

Definition sample_isValidCodeLength (n : Z) : bool :=
  (2 <=? n)%Z && (n <=? 15)%Z && (Z.even n || (10 <? n)%Z).

Definition sample_engine : GridEngine := {|
  olc_isValid := fun g => String.eqb g sample_code;
  olc_decode := fun g =>
    if String.eqb g sample_code then Return sample_cell else Raise ValueError;
  olc_encode := fun lat lon len =>
    if in_sample_cell lat lon && (len =? 11)%Z then Return sample_code
    else Raise ValueError;
  isValidCodeArea := fun c =>
    sample_isValidCodeLength (olc_codeLength c)
    && between (-90) 90 (olc_latitudeLo c) (olc_latitudeHi c)
    && between (-180) 180 (olc_longitudeLo c) (olc_longitudeHi c);
  isValidCodeLength := sample_isValidCodeLength;
  isValidLatitude := between (-90) 90;
  isValidLongitude := between (-180) 180;
  isValidLatitudeCenter := fun lo hi c =>
    between (-90) 90 lo hi && Qle_bool lo c && Qle_bool c hi;
  isValidLongitudeCenter := fun lo hi c =>
    between (-180) 180 lo hi && Qle_bool lo c && Qle_bool c hi
|}.

(** ** Relations between boxes and sample areas *)

(** The bounding box of [a] lies within that of [b], bound by bound. *)
Definition box_within (a b : CodeArea) : Prop :=
  latitudeLo b <= latitudeLo a /\ latitudeHi a <= latitudeHi b
  /\ longitudeLo b <= longitudeLo a /\ longitudeHi a <= longitudeHi b.


(** The center cell lies within the bounding box. *)
Definition contains_centroid (a : CodeArea) : Prop :=
  latitudeLo a <= olc_latitudeLo (centroid a)
  /\ olc_latitudeLo (centroid a) <= olc_latitudeHi (centroid a)
  /\ olc_latitudeHi (centroid a) <= latitudeHi a
  /\ longitudeLo a <= olc_longitudeLo (centroid a)
  /\ olc_longitudeLo (centroid a) <= olc_longitudeHi (centroid a)
  /\ olc_longitudeHi (centroid a) <= longitudeHi a.

(** The area of a rectangle returned by [intersection], computed as
    [jaccard] computes it. *)
Definition bbox_area (b : Q * Q * Q * Q) : Q :=
  match b with (b0, b1, b2, b3) => (b3 - b1) * (b2 - b0) end.

(** Latitudes 1 to 2, longitudes 3 to 4. *)
Definition box_1234 : CodeArea := mkCodeArea sample_cell 1 3 2 4 11.

(** The sample cell as an area of its own (all extents zero), and what
    [resize] makes of it: a point, then a box turned inside out. *)
Definition cell_area : CodeArea :=
  mkCodeArea sample_cell (olc_latitudeLo sample_cell) (olc_longitudeLo sample_cell)
             (olc_latitudeHi sample_cell) (olc_longitudeHi sample_cell) 11.

Definition point_area : CodeArea := resize cell_area.

(** A store of two objects: the sample cell at 0, and at 1 an area around
    it, one cell wider on every side. *)
Definition sample_heap : gmap Heap.loc Heap.obj :=
  <[1%nat := Heap.AreaObj 0%nat (3777842 # 100000) (-12238965 # 100000)
                           (377785 # 10000) (-12238956 # 100000) 11]>
    (<[0%nat := Heap.OlcObj sample_cell]> ∅).

Definition sample_area : CodeArea :=
  mkCodeArea sample_cell (3777842 # 100000) (-12238965 # 100000)
             (377785 # 10000) (-12238956 # 100000) 11.

(** The identifier of the module's examples, and the same followed by a
    newline. *)
Definition sample_ubid : string := "849VQJH6+95J-51-58-42-50".
Definition newline : string := String "010" EmptyString.
Definition sample_ubid_nl : string := sample_ubid ++ newline.


(** The extent a match holds in group [k]. *)
Definition extent_of (m : captures) (k : nat) : Z :=
  match py_int (group m k) with
  | Return n => n
  | Raise _ => 0%Z
  end.

(** An identifier written from a grid code and four extents. *)
Definition ubid_text (g : string) (n e s w : N) : string :=
  g ++ "-" ++ dec n ++ "-" ++ dec e ++ "-" ++ dec s ++ "-" ++ dec w.

(** An identifier around the sample code that reaches millions of cells in
    every direction and stays on the globe, and one whose north extent has
    forty digits. *)
Definition wide_ubid : string :=
  ubid_text sample_code 2000000 9000000 5000000 1000000.

Definition forty_digits : N := 1234567890123456789012345678901234567890.

Definition long_ubid : string := ubid_text sample_code forty_digits 0 0 0.

(** ** What a pattern matches

    For a pattern without groups and anchors: the words it matches, apart
    from any order of trial. *)

Fixpoint plain (r : regex) : bool :=
  match r with
  | Eps | Cls _ | Rep _ _ _ => true
  | Bol | Eol | Grp _ _ => false
  | Cat r1 r2 | Alt r1 r2 => plain r1 && plain r2
  | Opt r1 => plain r1
  end.

Definition within (hi : option nat) (n : nat) : Prop :=
  match hi with
  | Some h => (n <= h)%nat
  | None => True
  end.

Fixpoint lang (r : regex) (w : list ascii) : Prop :=
  match r with
  | Eps => w = []
  | Bol | Eol => w = []
  | Cls cs => exists x, w = [x] /\ in_class cs x = true
  | Cat r1 r2 => exists w1 w2, w = (w1 ++ w2)%list /\ lang r1 w1 /\ lang r2 w2
  | Alt r1 r2 => lang r1 w \/ lang r2 w
  | Opt r1 => lang r1 w \/ w = []
  | Rep cs lo hi =>
      forallb (in_class cs) w = true /\ (lo <= List.length w)%nat
      /\ within hi (List.length w)
  | Grp _ r1 => lang r1 w
  end.

(** No class of the pattern holds the character [c]. *)
Fixpoint avoids (c : ascii) (r : regex) : bool :=
  match r with
  | Eps | Bol | Eol => true
  | Cls cs | Rep cs _ _ => negb (in_class cs c)
  | Cat r1 r2 | Alt r1 r2 => avoids c r1 && avoids c r2
  | Opt r1 | Grp _ r1 => avoids c r1
  end.

(** The first character of [w], when there is one, does not satisfy [p]. *)
Definition head_fails (p : ascii -> bool) (w : list ascii) : Prop :=
  match w with
  | [] => True
  | x :: _ => p x = false
  end.

(** [sep.join(parts)] *)
Fixpoint join_on (sep : ascii) (parts : list (list ascii)) : list ascii :=
  match parts with
  | [] => []
  | [p] => p
  | p :: ps => (p ++ sep :: join_on sep ps)%list
  end.

(** The groups of a match of [RE_PATTERN_] whose parts are [g], [n], [e],
    [so] and [w]. *)
Definition groups_of (g n e so w : list ascii) : captures :=
  [(5%nat, w); (4%nat, so); (3%nat, e); (2%nat, n); (1%nat, g)].

(** ** Points and rectangles

    Vocabulary for the statements about [intersection] and [jaccard]. *)

(** The point [(lat, lon)] lies in the bounding box of [a], edges included. *)
Definition area_contains (a : CodeArea) (lat lon : Q) : Prop :=
  latitudeLo a <= lat /\ lat <= latitudeHi a
  /\ longitudeLo a <= lon /\ lon <= longitudeHi a.

(** The same for a rectangle as [intersection] returns it: longitudes
    first. *)
Definition in_rect (r : Q * Q * Q * Q) (lat lon : Q) : Prop :=
  match r with
  | (lonLo, latLo, lonHi, latHi) =>
      latLo <= lat /\ lat <= latHi /\ lonLo <= lon /\ lon <= lonHi
  end.


(** Two results of [intersection] are the same rectangle, or both [None]. *)
Definition same_rect (r r' : option (Q * Q * Q * Q)) : Prop :=
  match r, r' with
  | None, None => True
  | Some (x0, y0, x1, y1), Some (x0', y0', x1', y1') =>
      x0 == x0' /\ y0 == y0' /\ x1 == x1' /\ y1 == y1'
  | _, _ => False
  end.

(** Two outcomes of [jaccard] are the same: both [None], the same number,
    or the same exception. *)
Definition same_outcome (x y : result (option Q)) : Prop :=
  match x, y with
  | Return None, Return None => True
  | Return (Some j), Return (Some j') => j == j'
  | Raise e, Raise e' => e = e'
  | _, _ => False
  end.

(** The area of the overlap of two boxes, as [jaccard] computes it from the
    rectangle of [intersection]. *)
Definition overlap (a b : CodeArea) : Q :=
  (pymin (latitudeHi a) (latitudeHi b) - pymax (latitudeLo a) (latitudeLo b))
  * (pymin (longitudeHi a) (longitudeHi b) - pymax (longitudeLo a) (longitudeLo b)).

(** ** Letter case

    [s] with every ASCII small letter replaced by its capital, and the
    same on the groups of a match. *)
Definition to_upper (s : string) : string :=
  string_of_list_ascii (map upper (list_ascii_of_string s)).

Definition upper_captures (m : captures) : captures :=
  map (fun p => (fst p, map upper (snd p))) m.

(** ** The cells of an encoding

    [encode] asks the grid engine for the cells of three points: the
    north-east corner, the south-west corner and the center. *)

Section Cells.

Context {E : GridEngine}.

Definition encode_cells (latLo lonLo latHi lonHi latitudeCenter longitudeCenter : Q)
    (codeLength : Z) (olcCenter : string)
    (codeAreaNortheast codeAreaSouthwest codeAreaCenter : OlcArea) : Prop :=
  exists olcNortheast olcSouthwest,
    olc_encode latHi lonHi codeLength = Return olcNortheast
    /\ olc_decode olcNortheast = Return codeAreaNortheast
    /\ olc_encode latLo lonLo codeLength = Return olcSouthwest
    /\ olc_decode olcSouthwest = Return codeAreaSouthwest
    /\ olc_encode latitudeCenter longitudeCenter codeLength = Return olcCenter
    /\ olc_decode olcCenter = Return codeAreaCenter.

End Cells.




(** ** The method [CodeArea.encode]

    The method passes the bounds of the area, the center of its center cell
    and its code length to [encode].  The attributes [latitudeCenter] and
    [longitudeCenter] of a cell are set by the Open Location Code library
    when it builds the cell: they are functions of the cell, and the method
    is parametric in them. *)

Section Methods.

Context {E : GridEngine}.

Variable olc_latitudeCenter : OlcArea -> Q.
Variable olc_longitudeCenter : OlcArea -> Q.



End Methods.




(** ** Tiles and quadkeys ([pymodule/gis_helpers.py])

    Tile coordinates and zoom levels are Python [int]s: [Z], with [&] and
    [<<] on the two's complement representation. *)

(** [str(n)] for an [int] that is not negative. *)
Definition str_int (n : Z) : string := dec (Z.to_N n).

(** One turn of the loop of [tile_to_quadkey], for the value [i] of the
    loop variable. *)
Definition quadkey_digit (x y i : Z) : Z :=
  let digit := 0%Z in
  let mask := Z.shiftl 1 (i - 1) in
  let digit := if negb (Z.land x mask =? 0)%Z then (digit + 1)%Z else digit in
  let digit := if negb (Z.land y mask =? 0)%Z then (digit + 2)%Z else digit in
  digit.

(** The loop [for i in range(zoom, 0, -1)], with [i] turns left and the
    string built so far. *)
Fixpoint quadkey_loop (x y : Z) (i : nat) (quadkey : string) : string :=
  match i with
  | O => quadkey
  | S i' =>
      quadkey_loop x y i' (quadkey ++ str_int (quadkey_digit x y (Z.of_nat i)))
  end.

(** [tile_to_quadkey]; [range(zoom, 0, -1)] is empty when [zoom] is not
    positive. *)
Definition tile_to_quadkey (x y zoom : Z) : string :=
  quadkey_loop x y (Z.to_nat zoom) "".

(** The digit that stands for one bit of [x] and one bit of [y]. *)
Definition bit_digit (bx bY : bool) : ascii :=
  match bx, bY with
  | false, false => "0"
  | true, false => "1"
  | false, true => "2"
  | true, true => "3"
  end%char.

(** The digits for the bits [i - 1] down to 0 of [x] and [y]. *)
Fixpoint bit_digits (x y : Z) (i : nat) : list ascii :=
  match i with
  | O => []
  | S i' =>
      bit_digit (Z.testbit x (Z.of_nat i')) (Z.testbit y (Z.of_nat i'))
      :: bit_digits x y i'
  end.

(** [range(lo, hi)] *)
Definition py_range (lo hi : Z) : list Z :=
  map (fun k => (lo + Z.of_nat k)%Z) (seq 0 (Z.to_nat (hi - lo))).

Section Tiles.

(** [deg2num] computes the tile of a point with [math.tan], [math.asinh]
    and [math.pi]; what follows uses only the pair of integers it returns,
    and is parametric in it. *)
Variable deg2num : Q -> Q -> Z -> Z * Z.

(** [get_quadkeys_for_bbox]: the two loops, the list built so far passed
    along. *)
Definition get_quadkeys_for_bbox (north south east west : Q) (zoom : Z)
  : list string :=
  let '(min_x, max_y) := deg2num south west zoom in
  let '(max_x, min_y) := deg2num north east zoom in
  fold_left
    (fun (quadkeys : list string) x =>
       fold_left
         (fun (quadkeys : list string) y =>
            (quadkeys ++ [tile_to_quadkey x y zoom])%list)
         (py_range min_y (max_y + 1)) quadkeys)
    (py_range min_x (max_x + 1)) [].

End Tiles.

(** * Properties *)

Local Open Scope list_scope.

(** ** Comparisons *)

Lemma Qgtb_true (a b : Q) : Qgtb a b = true <-> b < a.
Proof.
  unfold Qgtb. rewrite negb_true_iff. split.
  - intros H. apply Qnot_le_lt. intros Hle. apply Qle_bool_iff in Hle. congruence.
  - intros H. destruct (Qle_bool a b) eqn:Hb; [|reflexivity].
    apply Qle_bool_iff in Hb. lra.
Qed.

Lemma Qgtb_false (a b : Q) : Qgtb a b = false <-> a <= b.
Proof.
  unfold Qgtb. rewrite negb_false_iff. apply Qle_bool_iff.
Qed.

Lemma Qgeb_true (a b : Q) : Qgeb a b = true <-> b <= a.
Proof. unfold Qgeb. apply Qle_bool_iff. Qed.

Lemma pymax_cases (a b : Q) :
  (a < b /\ pymax a b = b) \/ (b <= a /\ pymax a b = a).
Proof.
  unfold pymax. destruct (Qgtb b a) eqn:H.
  - left. apply Qgtb_true in H. auto.
  - right. apply Qgtb_false in H. auto.
Qed.

Lemma pymin_cases (a b : Q) :
  (b < a /\ pymin a b = b) \/ (a <= b /\ pymin a b = a).
Proof.
  unfold pymin. destruct (Qgtb a b) eqn:H.
  - left. apply Qgtb_true in H. auto.
  - right. apply Qgtb_false in H. auto.
Qed.

(** [pymax] is the greater and [pymin] the smaller of the two. *)
Lemma pymax_is_max (a b : Q) : pymax a b == Qmax a b.
Proof.
  destruct (pymax_cases a b) as [[H ->]|[H ->]].
  - symmetry. apply Q.max_r. lra.
  - symmetry. apply Q.max_l. lra.
Qed.

Lemma pymin_is_min (a b : Q) : pymin a b == Qmin a b.
Proof.
  destruct (pymin_cases a b) as [[H ->]|[H ->]].
  - symmetry. apply Q.min_r. lra.
  - symmetry. apply Q.min_l. lra.
Qed.



(** ** Intersection *)

Lemma intersection_some (a b : CodeArea) (r : Q * Q * Q * Q) :
  intersection a (Some b) = Some r ->
  r = (pymax (longitudeLo a) (longitudeLo b), pymax (latitudeLo a) (latitudeLo b),
       pymin (longitudeHi a) (longitudeHi b), pymin (latitudeHi a) (latitudeHi b)).
Proof.
  unfold intersection. cbv zeta.
  destruct (Qgtb _ _ || Qgtb _ _); [discriminate|].
  intros H. injection H as <-. reflexivity.
Qed.

Lemma intersection_none (a b : CodeArea) :
  intersection a (Some b) = None <->
  pymin (latitudeHi a) (latitudeHi b) < pymax (latitudeLo a) (latitudeLo b)
  \/ pymin (longitudeHi a) (longitudeHi b) < pymax (longitudeLo a) (longitudeLo b).
Proof.
  unfold intersection. cbv zeta.
  destruct (Qgtb (pymax (latitudeLo a) (latitudeLo b)) _) eqn:H1;
    destruct (Qgtb (pymax (longitudeLo a) (longitudeLo b)) _) eqn:H2; simpl;
    rewrite ?Qgtb_true, ?Qgtb_false in *; split; intros H;
    try reflexivity; try discriminate; try tauto.
  destruct H; lra.
Qed.

(** C3, as stated, fails: on the box with latitudes 1 to 2 and longitudes
    3 to 4, intersected with itself, the result is (3, 1, 4, 2), longitude
    first, not the latitude-first rectangle of the claim. *)
Lemma intersection_order_counterexample :
  intersection box_1234 (Some box_1234) = Some (3, 1, 4, 2)
  /\ intersection box_1234 (Some box_1234)
     <> Some (pymax (latitudeLo box_1234) (latitudeLo box_1234),
              pymax (longitudeLo box_1234) (longitudeLo box_1234),
              pymin (latitudeHi box_1234) (latitudeHi box_1234),
              pymin (longitudeHi box_1234) (longitudeHi box_1234)).
Proof.
  split; [reflexivity|]. vm_compute. intros H. discriminate H.
Qed.

(** C3, amended: when [intersection a b] is not [None], it is the
    rectangle (max of the low longitudes, max of the low latitudes, min of
    the high longitudes, min of the high latitudes), in this order, as the
    docstring of the method has it. *)
Theorem intersection_components (a b : CodeArea) (r : Q * Q * Q * Q) :
  intersection a (Some b) = Some r ->
  r = (pymax (longitudeLo a) (longitudeLo b), pymax (latitudeLo a) (latitudeLo b),
       pymin (longitudeHi a) (longitudeHi b), pymin (latitudeHi a) (latitudeHi b))
  /\ fst (fst (fst r)) == Qmax (longitudeLo a) (longitudeLo b)
  /\ snd (fst (fst r)) == Qmax (latitudeLo a) (latitudeLo b)
  /\ snd (fst r) == Qmin (longitudeHi a) (longitudeHi b)
  /\ snd r == Qmin (latitudeHi a) (latitudeHi b).
Proof.
  intros H. apply intersection_some in H. subst r. cbn [fst snd].
  repeat split; auto using pymax_is_max, pymin_is_min.
Qed.

Lemma intersection_components_witness :
  intersection box_1234 (Some box_1234) = Some (3, 1, 4, 2)
  /\ (3, 1, 4, 2)
     = (pymax (longitudeLo box_1234) (longitudeLo box_1234),
        pymax (latitudeLo box_1234) (latitudeLo box_1234),
        pymin (longitudeHi box_1234) (longitudeHi box_1234),
        pymin (latitudeHi box_1234) (latitudeHi box_1234)).
Proof.
  split; [reflexivity|].
  exact (proj1 (@intersection_components box_1234 box_1234 (3, 1, 4, 2) eq_refl)).
Defined.

(** C6: [intersection a b] is [None] exactly when the latitude range or the
    longitude range of the result is strictly inverted; when a range is
    reduced to a point ([lo == hi]) and none is inverted, the result is a
    rectangle of area zero. *)
Theorem intersection_none_iff_inverted (a b : CodeArea) :
  (intersection a (Some b) = None <->
   pymin (latitudeHi a) (latitudeHi b) < pymax (latitudeLo a) (latitudeLo b)
   \/ pymin (longitudeHi a) (longitudeHi b) < pymax (longitudeLo a) (longitudeLo b))
  /\ (pymax (latitudeLo a) (latitudeLo b) <= pymin (latitudeHi a) (latitudeHi b) ->
      pymax (longitudeLo a) (longitudeLo b) <= pymin (longitudeHi a) (longitudeHi b) ->
      pymax (latitudeLo a) (latitudeLo b) == pymin (latitudeHi a) (latitudeHi b)
      \/ pymax (longitudeLo a) (longitudeLo b) == pymin (longitudeHi a) (longitudeHi b) ->
      exists r, intersection a (Some b) = Some r /\ bbox_area r == 0).
Proof.
  split; [apply intersection_none|].
  intros Hlat Hlon Htouch.
  destruct (intersection a (Some b)) as [r|] eqn:Hi.
  - exists r. split; [reflexivity|].
    apply intersection_some in Hi. subst r. unfold bbox_area.
    destruct Htouch as [H|H]; rewrite H; ring.
  - apply intersection_none in Hi. destruct Hi; lra.
Qed.

(** ** Jaccard *)



(** On an area reduced to a point the quotient is 0 / 0. *)
Remark jaccard_point_area :
  jaccard point_area (Some point_area) = Raise ZeroDivisionError.
Proof. reflexivity. Qed.



(** ** Resize *)



(** C9 is stated on the store of objects.  [resize] on an area builds its
    result at a place that held nothing, leaves every object of the store as
    it was (the receiver and its centroid among them), and the new area
    refers to the same centroid object and has the same code length; its
    bounds are those [resize] computes. *)
Theorem resize_allocates (h : gmap Heap.loc Heap.obj) (self : Heap.loc) (a : CodeArea) :
  Heap.view h self = Some a ->
  exists h' r c,
    Heap.resize h self = Some (h', r)
    /\ h !! r = None
    /\ (forall l o, h !! l = Some o -> h' !! l = Some o)
    /\ Heap.view h' self = Some a
    /\ Heap.view h' r = Some (resize a)
    /\ Heap.centroid_ref h self = Some c
    /\ Heap.centroid_ref h' r = Some c
    /\ centroid (resize a) = centroid a
    /\ codeLength (resize a) = codeLength a.
Proof.
  unfold Heap.view, Heap.resize, Heap.centroid_ref. intros Hv.
  destruct (h !! self) as [[|c latLo lonLo latHi lonHi len]|] eqn:Hs; try discriminate.
  destruct (h !! c) as [[cell|]|] eqn:Hc; try discriminate.
  injection Hv as <-.
  set (r := fresh (dom h)).
  assert (Hr : h !! r = None) by (apply not_elem_of_dom; apply is_fresh).
  assert (Hrs : r <> self) by congruence.
  assert (Hrc : r <> c) by congruence.
  eexists _, r, c. split; [reflexivity|].
  split; [exact Hr|]. split.
  { intros l o Hl. rewrite lookup_insert_ne; [exact Hl|congruence]. }
  rewrite (lookup_insert_ne _ r self) by exact Hrs.
  rewrite Hs.
  rewrite (lookup_insert_ne _ r c) by exact Hrc.
  rewrite Hc, lookup_insert_eq.
  rewrite (lookup_insert_ne _ r c) by exact Hrc.
  rewrite Hc.
  repeat split; reflexivity.
Qed.

Lemma resize_allocates_witness :
  exists h' r c,
    Heap.resize sample_heap 1%nat = Some (h', r)
    /\ sample_heap !! r = None
    /\ (forall l o, sample_heap !! l = Some o -> h' !! l = Some o)
    /\ Heap.view h' 1%nat = Some sample_area
    /\ Heap.view h' r = Some (resize sample_area)
    /\ Heap.centroid_ref sample_heap 1%nat = Some c
    /\ Heap.centroid_ref h' r = Some c
    /\ centroid (resize sample_area) = centroid sample_area
    /\ codeLength (resize sample_area) = codeLength sample_area.
Proof.
  apply (@resize_allocates sample_heap 1%nat sample_area). reflexivity.
Defined.

(** ** The validator *)

(** C10: on [None], [isValid_] returns [None] and [isValid] returns
    [False]; both are total functions, neither raises. *)
Theorem isValid_None (E : GridEngine) :
  isValid None = false /\ isValid_ None = None.
Proof. split; reflexivity. Qed.

(** ** The decoder *)

Lemma bind_Return {A B : Type} (m : result A) (f : A -> result B) (b : B) :
  bind m f = Return b -> exists a, m = Return a /\ f a = Return b.
Proof.
  destruct m as [a|e]; cbn; [eauto | discriminate].
Qed.

Lemma assert_Return (c : bool) (u : unit) : assert c = Return u -> c = true.
Proof. destruct c; [reflexivity | discriminate]. Qed.

Tactic Notation "bind_inv" hyp(H) "as" ident(x) ident(Hx) :=
  apply bind_Return in H; destruct H as (x & Hx & H).

Tactic Notation "check_inv" hyp(H) "as" ident(Hx) :=
  let u := fresh "u" in
  apply bind_Return in H; destruct H as (u & Hx & H);
  apply assert_Return in Hx; clear u.

Lemma int_acc_nonneg (w : list ascii) (acc n : Z) :
  (0 <= acc)%Z -> int_acc acc w = Some n -> (0 <= n)%Z.
Proof.
  revert acc. induction w as [|c w IH]; cbn; intros acc Hacc H.
  - injection H as <-. exact Hacc.
  - destruct (is_digit c); [|discriminate].
    apply IH in H; [exact H|]. unfold digit_value. lia.
Qed.

(** An extent read by [int] is never negative. *)
Lemma py_int_nonneg (s : string) (n : Z) : py_int s = Return n -> (0 <= n)%Z.
Proof.
  unfold py_int. destruct (list_ascii_of_string s) as [|c w]; [discriminate|].
  destruct (int_acc 0 (c :: w)) as [k|] eqn:H; [|discriminate].
  intros E. injection E as <-. eapply int_acc_nonneg; [|exact H]. lia.
Qed.

(** What a successful [decode] has gone through. *)
Lemma decode_Return (E : GridEngine) (code : option string) (a : CodeArea) :
  decode code = Return a ->
  exists m c south north west east,
    isValid_ code = Some m
    /\ olc_decode (group m RE_GROUP_OPENLOCATIONCODE_) = Return c
    /\ isValidCodeArea c = true
    /\ 0 <= olc_latitudeHi c - olc_latitudeLo c
    /\ 0 <= olc_longitudeHi c - olc_longitudeLo c
    /\ py_int (group m RE_GROUP_SOUTH_) = Return south
    /\ py_int (group m RE_GROUP_NORTH_) = Return north
    /\ py_int (group m RE_GROUP_WEST_) = Return west
    /\ py_int (group m RE_GROUP_EAST_) = Return east
    /\ a = mkCodeArea c
             (olc_latitudeLo c - inject_Z south * (olc_latitudeHi c - olc_latitudeLo c))
             (olc_longitudeLo c - inject_Z west * (olc_longitudeHi c - olc_longitudeLo c))
             (olc_latitudeHi c + inject_Z north * (olc_latitudeHi c - olc_latitudeLo c))
             (olc_longitudeHi c + inject_Z east * (olc_longitudeHi c - olc_longitudeLo c))
             (olc_codeLength c)
    /\ isValidLatitude (latitudeLo a) (latitudeHi a) = true
    /\ isValidLongitude (longitudeLo a) (longitudeHi a) = true.
Proof.
  unfold decode. destruct (isValid_ code) as [m|]; [|discriminate].
  intros H. cbv zeta in H.
  bind_inv H as c Hc.
  check_inv H as Hca.
  check_inv H as Hh. apply Qgeb_true in Hh.
  check_inv H as Hw. apply Qgeb_true in Hw.
  bind_inv H as south Hs.
  bind_inv H as north Hn.
  check_inv H as Hlat.
  bind_inv H as west Hwe.
  bind_inv H as east He.
  check_inv H as Hlon.
  injection H as <-.
  exists m, c, south, north, west, east. cbn [latitudeLo latitudeHi longitudeLo longitudeHi].
  repeat (split; [assumption || reflexivity|]). assumption.
Qed.

(** C8: every area returned by [decode] contains its center cell:
    [latitudeLo <= centroid.latitudeLo <= centroid.latitudeHi <= latitudeHi],
    and likewise for the longitudes. *)
Theorem decode_contains_centroid (E : GridEngine) (code : option string) (a : CodeArea) :
  decode code = Return a -> contains_centroid a.
Proof.
  intros H. apply decode_Return in H.
  destruct H as (m & c & south & north & west & east & _ & _ & _ & Hh & Hw
                 & Hs & Hn & Hwe & He & -> & _).
  apply py_int_nonneg in Hs, Hn, Hwe, He.
  unfold contains_centroid. cbn.
  assert (0 <= inject_Z south) by (change 0 with (inject_Z 0); rewrite <- Zle_Qle; exact Hs).
  assert (0 <= inject_Z north) by (change 0 with (inject_Z 0); rewrite <- Zle_Qle; exact Hn).
  assert (0 <= inject_Z west) by (change 0 with (inject_Z 0); rewrite <- Zle_Qle; exact Hwe).
  assert (0 <= inject_Z east) by (change 0 with (inject_Z 0); rewrite <- Zle_Qle; exact He).
  set (h := olc_latitudeHi c - olc_latitudeLo c) in *.
  set (w := olc_longitudeHi c - olc_longitudeLo c) in *.
  assert (0 <= inject_Z south * h) by (apply Qmult_le_0_compat; assumption).
  assert (0 <= inject_Z north * h) by (apply Qmult_le_0_compat; assumption).
  assert (0 <= inject_Z west * w) by (apply Qmult_le_0_compat; assumption).
  assert (0 <= inject_Z east * w) by (apply Qmult_le_0_compat; assumption).
  unfold h, w in *. repeat split; lra.
Qed.

Lemma decode_contains_centroid_witness :
  exists a, decode (E := sample_engine) (Some "849VQJH6+95J-51-58-42-50") = Return a
            /\ contains_centroid a.
Proof.
  destruct (decode (E := sample_engine) (Some "849VQJH6+95J-51-58-42-50"))
    as [a|e] eqn:H.
  - exists a. split; [reflexivity|].
    exact (@decode_contains_centroid sample_engine _ a H).
  - exfalso. vm_compute in H. discriminate H.
Defined.

(** ** The matcher and the words of a pattern *)

Lemma within_pred (hi : option nat) (n : nat) :
  hi <> Some O -> within (option_map Nat.pred hi) n -> within hi (S n).
Proof.
  destruct hi as [[|h]|]; cbn; intros Hne H; try exact I; [congruence | lia].
Qed.

Lemma within_S (hi : option nat) (n : nat) :
  within hi (S n) -> hi <> Some O /\ within (option_map Nat.pred hi) n.
Proof.
  destruct hi as [[|h]|]; cbn; intros H; split; try exact I; try congruence; lia.
Qed.

Lemma rep_match_sound (cs : cclass) (rest : list ascii) :
  forall lo hi pos caps k m,
    rep_match cs lo hi rest pos caps k = Some m ->
    exists w rest',
      rest = w ++ rest' /\ forallb (in_class cs) w = true
      /\ (lo <= List.length w)%nat /\ within hi (List.length w)
      /\ k rest' (pos + List.length w)%nat caps = Some m.
Proof.
  assert (Hstop : forall rest lo hi pos caps (k : cont) m,
             (if (lo =? 0)%nat then k rest pos caps else None) = Some m ->
             exists w rest',
               rest = w ++ rest' /\ forallb (in_class cs) w = true
               /\ (lo <= List.length w)%nat /\ within hi (List.length w)
               /\ k rest' (pos + List.length w)%nat caps = Some m).
  { intros rest0 lo hi pos caps k m H.
    destruct (Nat.eqb_spec lo 0) as [->|]; [|discriminate].
    exists [], rest0. cbn. rewrite Nat.add_0_r.
    repeat split; auto. destruct hi; cbn; [lia | exact I]. }
  induction rest as [|x rest IH]; intros lo hi pos caps k m H.
  - apply Hstop. destruct hi as [[|h]|]; exact H.
  - cbn [rep_match] in H.
    assert (Hne : hi <> Some O ->
                  match (if in_class cs x
                         then match rep_match cs (Nat.pred lo) (option_map Nat.pred hi)
                                      rest (S pos) caps k with
                              | Some m0 => Some m0
                              | None => if (lo =? 0)%nat then k (x :: rest) pos caps else None
                              end
                         else if (lo =? 0)%nat then k (x :: rest) pos caps else None)
                  with r => r end = Some m ->
                  exists w rest',
                    x :: rest = w ++ rest' /\ forallb (in_class cs) w = true
                    /\ (lo <= List.length w)%nat /\ within hi (List.length w)
                    /\ k rest' (pos + List.length w)%nat caps = Some m).
    { intros Hhi H'. destruct (in_class cs x) eqn:Hx; [|apply Hstop; exact H'].
      destruct (rep_match cs (Nat.pred lo) (option_map Nat.pred hi) rest (S pos) caps k)
        as [m0|] eqn:Hr; [|apply Hstop; exact H'].
      injection H' as ->. apply IH in Hr.
      destruct Hr as (w & rest' & -> & Hall & Hlo & Hhi' & Hk).
      exists (x :: w), rest'. cbn [List.length forallb app]. rewrite Hx, Hall.
      repeat split; auto.
      - lia.
      - apply within_pred; assumption.
      - rewrite <- Hk. f_equal. lia. }
    destruct hi as [[|h]|].
    + apply Hstop. exact H.
    + apply Hne; [discriminate | exact H].
    + apply Hne; [discriminate | exact H].
Qed.

Lemma rep_match_complete (cs : cclass) (w : list ascii) :
  forall rest' lo hi pos caps k m,
    forallb (in_class cs) w = true ->
    (lo <= List.length w)%nat -> within hi (List.length w) ->
    k rest' (pos + List.length w)%nat caps = Some m ->
    exists m', rep_match cs lo hi (w ++ rest') pos caps k = Some m'.
Proof.
  induction w as [|x w IH]; intros rest' lo hi pos caps k m Hall Hlo Hhi Hk.
  - cbn [List.length] in *. rewrite Nat.add_0_r in Hk.
    assert (lo = 0)%nat as -> by lia. cbn [app].
    destruct rest' as [|y rest']; cbn.
    + destruct hi as [[|h]|]; eauto.
    + destruct hi as [[|h]|]; eauto;
        destruct (in_class cs y); eauto;
        match goal with |- context [rep_match ?a ?b ?c ?d ?e ?f ?g] =>
          destruct (rep_match a b c d e f g) end; eauto.
  - cbn [List.length forallb app] in *.
    apply andb_true_iff in Hall. destruct Hall as [Hx Hall].
    apply within_S in Hhi. destruct Hhi as [Hne Hhi].
    destruct (IH rest' (Nat.pred lo) (option_map Nat.pred hi) (S pos) caps k m)
      as [m' Hm']; auto; [lia | rewrite <- Hk; f_equal; lia |].
    cbn [rep_match]. rewrite Hx, Hm'.
    destruct hi as [[|h]|]; [congruence | eauto | eauto].
Qed.

(** Soundness: a match of a plain pattern consumes one of its words, and
    what follows it is what the continuation accepted. *)
Lemma rmatch_sound (r : regex) :
  plain r = true ->
  forall rest pos caps k m,
    rmatch r rest pos caps k = Some m ->
    exists w rest',
      rest = w ++ rest' /\ lang r w
      /\ k rest' (pos + List.length w)%nat caps = Some m.
Proof.
  induction r as [| | |cs|r1 IH1 r2 IH2|r1 IH1 r2 IH2|r1 IH1|cs lo hi|n r1 IH1];
    cbn [plain]; intros Hp rest pos caps k m H; try discriminate.
  - exists [], rest. cbn. rewrite Nat.add_0_r. auto.
  - cbn in H. destruct rest as [|x rest]; [discriminate|].
    destruct (in_class cs x) eqn:Hx; [|discriminate].
    exists [x], rest. cbn. rewrite Nat.add_1_r. eauto.
  - apply andb_true_iff in Hp. destruct Hp as [Hp1 Hp2]. cbn [rmatch] in H.
    apply (IH1 Hp1) in H. destruct H as (w1 & rest1 & -> & Hl1 & H).
    apply (IH2 Hp2) in H. destruct H as (w2 & rest2 & -> & Hl2 & H).
    exists (w1 ++ w2), rest2. rewrite <- app_assoc. split; [reflexivity|].
    split; [cbn; eauto|]. rewrite length_app, Nat.add_assoc. exact H.
  - apply andb_true_iff in Hp. destruct Hp as [Hp1 Hp2]. cbn [rmatch] in H.
    destruct (rmatch r1 rest pos caps k) as [m1|] eqn:H1.
    + injection H as ->. apply (IH1 Hp1) in H1.
      destruct H1 as (w & rest' & -> & Hl & Hk). exists w, rest'. cbn. auto.
    + apply (IH2 Hp2) in H.
      destruct H as (w & rest' & -> & Hl & Hk). exists w, rest'. cbn. auto.
  - cbn [rmatch] in H.
    destruct (rmatch r1 rest pos caps k) as [m1|] eqn:H1.
    + injection H as ->. apply (IH1 Hp) in H1.
      destruct H1 as (w & rest' & -> & Hl & Hk). exists w, rest'. cbn. auto.
    + exists [], rest. cbn. rewrite Nat.add_0_r. auto.
  - cbn [rmatch] in H. apply rep_match_sound in H.
    destruct H as (w & rest' & -> & Hall & Hlo & Hhi & Hk).
    exists w, rest'. cbn. auto.
Qed.

(** Completeness: when a word of a plain pattern stands at the front and
    the continuation accepts what follows, the matcher finds a match. *)
Lemma rmatch_complete (r : regex) :
  plain r = true ->
  forall w rest' pos caps k m,
    lang r w ->
    k rest' (pos + List.length w)%nat caps = Some m ->
    exists m', rmatch r (w ++ rest') pos caps k = Some m'.
Proof.
  induction r as [| | |cs|r1 IH1 r2 IH2|r1 IH1 r2 IH2|r1 IH1|cs lo hi|n r1 IH1];
    cbn [plain]; intros Hp w rest' pos caps k m Hl Hk; try discriminate.
  - cbn in Hl. subst w. cbn in *. rewrite Nat.add_0_r in Hk. eauto.
  - cbn in Hl. destruct Hl as (x & -> & Hx). cbn in *. rewrite Hx.
    rewrite Nat.add_1_r in Hk. eauto.
  - apply andb_true_iff in Hp. destruct Hp as [Hp1 Hp2].
    cbn in Hl. destruct Hl as (w1 & w2 & -> & Hl1 & Hl2).
    rewrite length_app, Nat.add_assoc in Hk.
    destruct (IH2 Hp2 w2 rest' (pos + List.length w1)%nat caps k m Hl2 Hk) as [m2 H2].
    cbn [rmatch]. rewrite <- app_assoc.
    apply (IH1 Hp1 w1 (w2 ++ rest') pos caps
               (fun rest'0 pos' caps' => rmatch r2 rest'0 pos' caps' k) m2 Hl1 H2).
  - apply andb_true_iff in Hp. destruct Hp as [Hp1 Hp2]. cbn [rmatch].
    destruct (rmatch r1 (w ++ rest') pos caps k) as [m1|] eqn:H1; [eauto|].
    cbn in Hl. destruct Hl as [Hl|Hl].
    + destruct (IH1 Hp1 w rest' pos caps k m Hl Hk) as [m' H']. congruence.
    + apply (IH2 Hp2 w rest' pos caps k m Hl Hk).
  - cbn [rmatch].
    destruct (rmatch r1 (w ++ rest') pos caps k) as [m1|] eqn:H1; [eauto|].
    cbn in Hl. destruct Hl as [Hl|Hl].
    + destruct (IH1 Hp w rest' pos caps k m Hl Hk) as [m' H']. congruence.
    + subst w. cbn in *. rewrite Nat.add_0_r in Hk. eauto.
  - cbn in Hl. destruct Hl as (Hall & Hlo & Hhi). cbn [rmatch].
    eapply rep_match_complete; eauto.
Qed.

Lemma lang_avoids (c : ascii) (r : regex) :
  avoids c r = true -> forall w, lang r w -> ~ In c w.
Proof.
  induction r as [| | |cs|r1 IH1 r2 IH2|r1 IH1 r2 IH2|r1 IH1|cs lo hi|n r1 IH1];
    cbn [avoids lang]; intros Ha w Hl.
  - subst w. auto.
  - subst w. auto.
  - subst w. auto.
  - destruct Hl as (x & -> & Hx). intros [<-|[]].
    rewrite Hx in Ha. discriminate.
  - apply andb_true_iff in Ha. destruct Ha as [Ha1 Ha2].
    destruct Hl as (w1 & w2 & -> & Hl1 & Hl2). intros Hin.
    apply in_app_or in Hin. destruct Hin; [eapply IH1 | eapply IH2]; eauto.
  - apply andb_true_iff in Ha. destruct Ha as [Ha1 Ha2].
    destruct Hl; [eapply IH1 | eapply IH2]; eauto.
  - destruct Hl as [Hl| ->]; [eapply IH1; eauto | auto].
  - destruct Hl as (Hall & _). intros Hin.
    rewrite forallb_forall in Hall. apply Hall in Hin.
    rewrite Hin in Ha. discriminate.
  - eapply IH1; eauto.
Qed.

(** ** Pieces of the identifier pattern *)

Ltac ascii_cases x :=
  destruct x as [[] [] [] [] [] [] [] []]; vm_compute; intros; try discriminate;
  try reflexivity.

Lemma in_class_separator (x : ascii) :
  in_class [CChar SEPARATOR_] x = true -> x = "-"%char.
Proof. ascii_cases x. Qed.

Lemma firstn_consumed (w rest' : list ascii) (pos : nat) :
  firstn (pos + List.length w - pos) (w ++ rest') = w.
Proof.
  replace (pos + List.length w - pos)%nat with (List.length w + 0)%nat by lia.
  rewrite firstn_app_2. cbn. apply List.app_nil_r.
Qed.

Lemma Cat_Grp_sound (n : nat) (r1 r2 : regex) rest pos caps k m :
  plain r1 = true ->
  rmatch (Cat (Grp n r1) r2) rest pos caps k = Some m ->
  exists w rest',
    rest = w ++ rest' /\ lang r1 w
    /\ rmatch r2 rest' (pos + List.length w)%nat ((n, w) :: caps) k = Some m.
Proof.
  intros Hp H. cbn [rmatch] in H. apply (rmatch_sound _ Hp) in H.
  destruct H as (w & rest' & -> & Hl & H).
  rewrite firstn_consumed in H. eauto.
Qed.

Lemma Cat_Grp_complete (n : nat) (r1 r2 : regex) w rest' k :
  plain r1 = true -> lang r1 w ->
  (forall pos caps, exists m, rmatch r2 rest' pos caps k = Some m) ->
  forall pos caps, exists m, rmatch (Cat (Grp n r1) r2) (w ++ rest') pos caps k = Some m.
Proof.
  intros Hp Hl H pos caps. cbn [rmatch].
  destruct (H (pos + List.length w)%nat ((n, w) :: caps)) as [m Hm].
  eapply (rmatch_complete _ Hp); [exact Hl|].
  cbv beta. rewrite firstn_consumed. exact Hm.
Qed.

Lemma Cat_sep_sound (r2 : regex) rest pos caps k m :
  rmatch (Cat (Lit SEPARATOR_) r2) rest pos caps k = Some m ->
  exists rest', rest = "-"%char :: rest' /\ rmatch r2 rest' (S pos) caps k = Some m.
Proof.
  cbn [rmatch Lit]. destruct rest as [|x rest]; [discriminate|].
  destruct (in_class [CChar SEPARATOR_] x) eqn:Hx; [|discriminate].
  apply in_class_separator in Hx. subst x. eauto.
Qed.

Lemma Cat_sep_complete (r2 : regex) rest' k :
  (forall pos caps, exists m, rmatch r2 rest' pos caps k = Some m) ->
  forall pos caps,
    exists m, rmatch (Cat (Lit SEPARATOR_) r2) ("-"%char :: rest') pos caps k = Some m.
Proof.
  intros H pos caps. exact (H (S pos) caps).
Qed.

Lemma Cat_Eol_sound rest pos caps (k : cont) m :
  rmatch (Cat Eol Eps) rest pos caps k = Some m ->
  (rest = [] \/ rest = ["010"%char]) /\ k rest pos caps = Some m.
Proof.
  cbn [rmatch]. destruct rest as [|c [|d rest]]; try discriminate; auto.
  destruct (Ascii.eqb_spec c "010"); [subst c; auto | discriminate].
Qed.

Lemma plain_gridcode_re : plain gridcode_re = true.
Proof. reflexivity. Qed.

Lemma plain_extent_re : plain extent_re = true.
Proof. reflexivity. Qed.

(** Soundness of the whole pattern: a match splits the subject into a grid
    code and four extents, separated by [-], with nothing or one newline
    after the last, and its groups are these parts. *)
Lemma re_match_sound (s : string) (m : captures) :
  re_match RE_PATTERN_ s = Some m ->
  exists g n e so w tl,
    list_ascii_of_string s
    = g ++ "-"%char :: n ++ "-"%char :: e ++ "-"%char :: so ++ "-"%char :: w ++ tl
    /\ (tl = [] \/ tl = ["010"%char])
    /\ lang gridcode_re g /\ lang extent_re n /\ lang extent_re e
    /\ lang extent_re so /\ lang extent_re w
    /\ m = groups_of g n e so w.
Proof.
  unfold re_match, RE_PATTERN_, join. cbn [fold_right]. intros H.
  change (rmatch (Cat Bol ?r) ?rest 0 ?caps ?k) with (rmatch r rest 0 caps k) in H.
  apply Cat_Grp_sound in H; [|exact plain_gridcode_re].
  destruct H as (g & rest1 & -> & Hg & H).
  apply Cat_sep_sound in H. destruct H as (rest2 & -> & H).
  apply Cat_Grp_sound in H; [|exact plain_extent_re].
  destruct H as (n & rest3 & -> & Hn & H).
  apply Cat_sep_sound in H. destruct H as (rest4 & -> & H).
  apply Cat_Grp_sound in H; [|exact plain_extent_re].
  destruct H as (e & rest5 & -> & He & H).
  apply Cat_sep_sound in H. destruct H as (rest6 & -> & H).
  apply Cat_Grp_sound in H; [|exact plain_extent_re].
  destruct H as (so & rest7 & -> & Hso & H).
  apply Cat_sep_sound in H. destruct H as (rest8 & -> & H).
  apply Cat_Grp_sound in H; [|exact plain_extent_re].
  destruct H as (w & tl & -> & Hw & H).
  apply Cat_Eol_sound in H. destruct H as [Htl H]. injection H as <-.
  exists g, n, e, so, w, tl. unfold groups_of. repeat split; auto.
Qed.

(** Completeness of the whole pattern: such a subject is matched. *)
Lemma re_match_complete (s : string) (g n e so w tl : list ascii) :
  list_ascii_of_string s
  = g ++ "-"%char :: n ++ "-"%char :: e ++ "-"%char :: so ++ "-"%char :: w ++ tl ->
  tl = [] \/ tl = ["010"%char] ->
  lang gridcode_re g -> lang extent_re n -> lang extent_re e ->
  lang extent_re so -> lang extent_re w ->
  exists m, re_match RE_PATTERN_ s = Some m.
Proof.
  intros Hs Htl Hg Hn He Hso Hw.
  unfold re_match, RE_PATTERN_, join. cbn [fold_right]. rewrite Hs.
  change (rmatch (Cat Bol ?r) ?rest 0 ?caps ?k) with (rmatch r rest 0 caps k).
  match goal with |- exists m, rmatch ?r ?rest _ _ ?k = _ =>
    enough (Hall : forall pos caps, exists m, rmatch r rest pos caps k = Some m)
      by apply Hall
  end.
  apply Cat_Grp_complete; [exact plain_gridcode_re | exact Hg |]. apply Cat_sep_complete.
  apply Cat_Grp_complete; [exact plain_extent_re | exact Hn |]. apply Cat_sep_complete.
  apply Cat_Grp_complete; [exact plain_extent_re | exact He |]. apply Cat_sep_complete.
  apply Cat_Grp_complete; [exact plain_extent_re | exact Hso |]. apply Cat_sep_complete.
  apply Cat_Grp_complete; [exact plain_extent_re | exact Hw |].
  intros pos caps.
  destruct Htl as [-> | ->]; cbn; eauto.
Qed.

(** ** Extents as text *)

Lemma in_class_zero (x : ascii) : in_class [CChar "0"] x = true -> x = "0"%char.
Proof. ascii_cases x. Qed.

Lemma in_class_19 (x : ascii) :
  in_class [CRange "1" "9"] x = is_digit x && negb (Ascii.eqb x "0").
Proof. ascii_cases x. Qed.

Lemma in_class_09 (x : ascii) : in_class [CRange "0" "9"] x = is_digit x.
Proof. ascii_cases x. Qed.

Lemma forallb_ext_in_class (w : list ascii) :
  forallb (in_class [CRange "0" "9"]) w = forallb is_digit w.
Proof.
  induction w as [|x w IH]; cbn [forallb]; [reflexivity|].
  rewrite in_class_09, IH. reflexivity.
Qed.

(** The words of the extent pattern are those the specification describes. *)
Lemma lang_extent_iff (w : list ascii) :
  lang extent_re w <-> spec_extent w = true.
Proof.
  unfold extent_re, Lit, join. cbn [fold_right lang]. split.
  - intros [(x & -> & Hx)|(w1 & w2 & -> & (x & -> & Hx) & (w3 & w4 & -> & (Hall & _) & ->))].
    + apply in_class_zero in Hx. subst x. reflexivity.
    + rewrite List.app_nil_r. cbn [app spec_extent].
      rewrite in_class_19 in Hx. apply andb_true_iff in Hx. destruct Hx as [Hd Hz].
      apply negb_true_iff in Hz. rewrite Hz, Hd.
      rewrite forallb_ext_in_class in Hall. exact Hall.
  - destruct w as [|c ds]; cbn [spec_extent]; [discriminate|].
    destruct (Ascii.eqb_spec c "0") as [->|Hc].
    + destruct ds; [|discriminate]. intros _. left. exists "0"%char. auto.
    + intros H. apply andb_true_iff in H. destruct H as [Hd Hall].
      right. exists [c], ds. split; [reflexivity|]. split.
      * exists c. split; [reflexivity|]. rewrite in_class_19, Hd.
        apply Ascii.eqb_neq in Hc. rewrite Hc. reflexivity.
      * exists ds, []. rewrite List.app_nil_r, forallb_ext_in_class.
        repeat split; auto. lia.
Qed.

Lemma spec_extent_digits (w : list ascii) :
  spec_extent w = true -> w <> [] /\ forallb is_digit w = true.
Proof.
  destruct w as [|c ds]; cbn [spec_extent]; [discriminate|].
  destruct (Ascii.eqb_spec c "0") as [->|Hc].
  - destruct ds; [|discriminate]. intros _. split; [discriminate | reflexivity].
  - intros H. split; [discriminate | exact H].
Qed.

Lemma int_acc_digits (w : list ascii) :
  forallb is_digit w = true -> forall acc, exists n, int_acc acc w = Some n.
Proof.
  induction w as [|c w IH]; cbn [forallb int_acc]; intros H acc; [eauto|].
  apply andb_true_iff in H. destruct H as [Hc Hw]. rewrite Hc. apply IH, Hw.
Qed.

(** [int] succeeds on every extent group, and returns what [extent_of]
    reads. *)
Lemma py_int_extent (w : list ascii) :
  spec_extent w = true ->
  exists n, py_int (string_of_list_ascii w) = Return n.
Proof.
  intros H. apply spec_extent_digits in H. destruct H as [Hne Hd].
  unfold py_int. rewrite list_ascii_of_string_of_list_ascii.
  destruct (int_acc_digits _ Hd 0%Z) as [n Hn].
  destruct w as [|c w']; [congruence|]. rewrite Hn. eauto.
Qed.

Lemma group_groups_of (g n e so w : list ascii) :
  group (groups_of g n e so w) RE_GROUP_OPENLOCATIONCODE_ = string_of_list_ascii g
  /\ group (groups_of g n e so w) RE_GROUP_NORTH_ = string_of_list_ascii n
  /\ group (groups_of g n e so w) RE_GROUP_EAST_ = string_of_list_ascii e
  /\ group (groups_of g n e so w) RE_GROUP_SOUTH_ = string_of_list_ascii so
  /\ group (groups_of g n e so w) RE_GROUP_WEST_ = string_of_list_ascii w.
Proof. repeat split; reflexivity. Qed.

(** The groups of a validated identifier are read by [int] without error. *)
Lemma isValid__extents (E : GridEngine) (code : option string) (m : captures) :
  isValid_ code = Some m ->
  py_int (group m RE_GROUP_NORTH_) = Return (extent_of m RE_GROUP_NORTH_)
  /\ py_int (group m RE_GROUP_EAST_) = Return (extent_of m RE_GROUP_EAST_)
  /\ py_int (group m RE_GROUP_SOUTH_) = Return (extent_of m RE_GROUP_SOUTH_)
  /\ py_int (group m RE_GROUP_WEST_) = Return (extent_of m RE_GROUP_WEST_).
Proof.
  unfold isValid_. destruct code as [s|]; [|discriminate].
  destruct (re_match RE_PATTERN_ s) as [m'|] eqn:Hm; [|discriminate].
  destruct (negb _); [discriminate|]. intros H. injection H as ->.
  apply re_match_sound in Hm.
  destruct Hm as (g & n & e & so & w & tl & _ & _ & _ & Hn & He & Hso & Hw & ->).
  apply lang_extent_iff, py_int_extent in Hn, He, Hso, Hw.
  destruct (group_groups_of g n e so w) as (_ & Gn & Ge & Gso & Gw).
  unfold extent_of. rewrite Gn, Ge, Gso, Gw.
  destruct Hn as [? ->], He as [? ->], Hso as [? ->], Hw as [? ->].
  repeat split; reflexivity.
Qed.

(** C1 fails on the code by one character: the identifier of the examples
    followed by a newline is accepted as soon as its grid code is, although
    it is not an identifier of the grammar (its last group is not a run of
    digits); without the newline it is one. *)
Theorem isValid_trailing_newline (E : GridEngine) :
  isValid (Some sample_ubid_nl) = olc_isValid sample_code
  /\ isValid (Some sample_ubid) = olc_isValid sample_code
  /\ spec_ubid sample_ubid_nl = false
  /\ spec_ubid sample_ubid = true.
Proof.
  assert (H1 : re_match RE_PATTERN_ sample_ubid_nl
               = Some (groups_of (list_ascii_of_string sample_code)
                         ["5"; "1"] ["5"; "8"] ["4"; "2"] ["5"; "0"])%char)
    by (vm_compute; reflexivity).
  assert (H2 : re_match RE_PATTERN_ sample_ubid
               = Some (groups_of (list_ascii_of_string sample_code)
                         ["5"; "1"] ["5"; "8"] ["4"; "2"] ["5"; "0"])%char)
    by (vm_compute; reflexivity).
  unfold isValid, isValid_. rewrite H1, H2.
  change (group _ RE_GROUP_OPENLOCATIONCODE_) with sample_code.
  destruct (olc_isValid sample_code); repeat split; reflexivity.
Qed.




(** ** Splitting at the separator and dropping a final newline *)

Lemma split_on_nonempty (sep : ascii) (w : list ascii) : split_on sep w <> [].
Proof.
  destruct w as [|c w]; cbn; [discriminate|].
  destruct (Ascii.eqb c sep); [discriminate|].
  destruct (split_on sep w); discriminate.
Qed.

Lemma split_on_no_sep (sep : ascii) (w : list ascii) :
  ~ In sep w -> split_on sep w = [w].
Proof.
  induction w as [|c w IH]; cbn; intros H; [reflexivity|].
  destruct (Ascii.eqb_spec c sep) as [->|Hc]; [tauto|].
  rewrite IH by tauto. reflexivity.
Qed.

Lemma split_on_app_sep (sep : ascii) (g rest : list ascii) :
  ~ In sep g -> split_on sep (g ++ sep :: rest) = g :: split_on sep rest.
Proof.
  induction g as [|c g IH]; cbn; intros H.
  - rewrite Ascii.eqb_refl. reflexivity.
  - destruct (Ascii.eqb_spec c sep) as [->|Hc]; [tauto|].
    rewrite IH by tauto. reflexivity.
Qed.

Lemma join_on_split_on (sep : ascii) (w : list ascii) :
  join_on sep (split_on sep w) = w.
Proof.
  induction w as [|c w IH]; cbn; [reflexivity|].
  destruct (Ascii.eqb_spec c sep) as [->|Hc].
  - cbn [join_on]. destruct (split_on sep w) eqn:E.
    + exfalso. revert E. apply split_on_nonempty.
    + cbn [app]. rewrite IH. reflexivity.
  - destruct (split_on sep w) as [|p ps] eqn:E.
    + exfalso. revert E. apply split_on_nonempty.
    + cbn [join_on] in *. destruct ps; cbn [app]; rewrite <- IH; reflexivity.
Qed.

Lemma chomp_list_snoc (w : list ascii) : chomp_list (w ++ ["010"%char]) = w.
Proof.
  induction w as [|c w IH]; [reflexivity|].
  cbn [app]. destruct w as [|d w]; [reflexivity|].
  change (chomp_list (c :: (d :: w) ++ ["010"%char]))
    with (c :: chomp_list ((d :: w) ++ ["010"%char])).
  rewrite IH. reflexivity.
Qed.

Lemma chomp_list_no_newline (w : list ascii) :
  ~ In "010"%char w -> chomp_list w = w.
Proof.
  induction w as [|c w IH]; [reflexivity|]. intros H.
  destruct w as [|d w].
  - cbn. destruct (Ascii.eqb_spec c "010"); [subst; cbn in H; tauto | reflexivity].
  - change (chomp_list (c :: d :: w)) with (c :: chomp_list (d :: w)).
    rewrite IH; [reflexivity|]. cbn in *. tauto.
Qed.

Lemma chomp_list_app (a b : list ascii) :
  b <> [] -> chomp_list (a ++ b) = a ++ chomp_list b.
Proof.
  intros Hb. induction a as [|c a IH]; [reflexivity|].
  cbn [app]. destruct (a ++ b) as [|d ab] eqn:E.
  - destruct a; [cbn in E; congruence | discriminate].
  - change (chomp_list (c :: d :: ab)) with (c :: chomp_list (d :: ab)).
    rewrite IH. reflexivity.
Qed.

Lemma chomp_list_cases (w : list ascii) :
  w = chomp_list w \/ w = chomp_list w ++ ["010"%char].
Proof.
  induction w as [|c w IH]; [left; reflexivity|].
  destruct w as [|d w].
  - cbn. destruct (Ascii.eqb_spec c "010"); [subst; right | left]; reflexivity.
  - change (chomp_list (c :: d :: w)) with (c :: chomp_list (d :: w)).
    destruct IH as [IH|IH]; [left | right]; cbn [app]; rewrite <- IH; reflexivity.
Qed.

Lemma avoids_separator :
  avoids SEPARATOR_ gridcode_re = true /\ avoids SEPARATOR_ extent_re = true.
Proof. split; reflexivity. Qed.

Lemma avoids_newline : avoids "010" extent_re = true.
Proof. reflexivity. Qed.

(** The parts of a subject of the right shape are found again by splitting
    it, once a final newline is dropped. *)
Lemma split_on_parts (g n e so w tl : list ascii) :
  (tl = [] \/ tl = ["010"%char]) ->
  lang gridcode_re g -> lang extent_re n -> lang extent_re e ->
  lang extent_re so -> lang extent_re w ->
  split_on SEPARATOR_
    (chomp_list (g ++ "-"%char :: n ++ "-"%char :: e ++ "-"%char :: so
                   ++ "-"%char :: w ++ tl))
  = [g; n; e; so; w]
  /\ hd [] (split_on SEPARATOR_
              (g ++ "-"%char :: n ++ "-"%char :: e ++ "-"%char :: so
                 ++ "-"%char :: w ++ tl)) = g.
Proof.
  intros Htl Hg Hn He Hso Hw.
  destruct avoids_separator as [Ag Ae].
  assert (Ng := lang_avoids _ _ Ag _ Hg).
  assert (Nn := lang_avoids _ _ Ae _ Hn).
  assert (Ne := lang_avoids _ _ Ae _ He).
  assert (Nso := lang_avoids _ _ Ae _ Hso).
  assert (Nw := lang_avoids _ _ Ae _ Hw).
  assert (Lw := lang_avoids _ _ avoids_newline _ Hw).
  assert (Ww : w <> []).
  { apply lang_extent_iff, spec_extent_digits in Hw. tauto. }
  split.
  - assert (Hc : chomp_list (w ++ tl) = w).
    { destruct Htl as [-> | ->].
      - rewrite List.app_nil_r. apply chomp_list_no_newline, Lw.
      - apply chomp_list_snoc. }
    assert (Hne : w ++ tl <> []) by (destruct w; [congruence | discriminate]).
    change (g ++ "-"%char :: n ++ "-"%char :: e ++ "-"%char :: so ++ "-"%char :: w ++ tl)
      with (g ++ ["-"%char] ++ n ++ ["-"%char] ++ e ++ ["-"%char] ++ so
              ++ ["-"%char] ++ w ++ tl).
    rewrite !List.app_assoc. rewrite <- (List.app_assoc _ w tl).
    rewrite chomp_list_app by exact Hne. rewrite Hc.
    rewrite <- !List.app_assoc. cbn [app].
    rewrite !split_on_app_sep by assumption.
    rewrite split_on_no_sep by assumption. reflexivity.
  - rewrite split_on_app_sep by assumption. reflexivity.
Qed.

(** What [RE_PATTERN_.match] accepts, and with which groups. *)
Theorem re_match_iff (s : string) (m : captures) :
  re_match RE_PATTERN_ s = Some m <->
  exists g n e so w,
    split_on SEPARATOR_ (chomp_list (list_ascii_of_string s)) = [g; n; e; so; w]
    /\ lang gridcode_re g
    /\ spec_extent n = true /\ spec_extent e = true
    /\ spec_extent so = true /\ spec_extent w = true
    /\ m = groups_of g n e so w.
Proof.
  split.
  - intros H. apply re_match_sound in H.
    destruct H as (g & n & e & so & w & tl & Hs & Htl & Hg & Hn & He & Hso & Hw & ->).
    exists g, n, e, so, w. rewrite Hs.
    destruct (split_on_parts Htl Hg Hn He Hso Hw) as [Hsp _].
    rewrite Hsp. rewrite <- !lang_extent_iff. auto 10.
  - intros (g & n & e & so & w & Hsp & Hg & Hn & He & Hso & Hw & ->).
    rewrite <- lang_extent_iff in Hn, He, Hso, Hw.
    assert (Hj := join_on_split_on SEPARATOR_ (chomp_list (list_ascii_of_string s))).
    rewrite Hsp in Hj. cbn [join_on] in Hj.
    assert (Hs : exists tl, (tl = [] \/ tl = ["010"%char])
                            /\ list_ascii_of_string s
                               = g ++ "-"%char :: n ++ "-"%char :: e ++ "-"%char
                                   :: so ++ "-"%char :: w ++ tl).
    { destruct (chomp_list_cases (list_ascii_of_string s)) as [Hc|Hc].
      - exists []. split; [auto|]. rewrite List.app_nil_r, Hc. symmetry. exact Hj.
      - exists ["010"%char]. split; [auto|]. rewrite Hc, <- Hj.
        rewrite <- !List.app_assoc. cbn [app]. rewrite <- !List.app_assoc.
        cbn [app]. rewrite <- !List.app_assoc. cbn [app].
        rewrite <- !List.app_assoc. reflexivity. }
    destruct Hs as (tl & Htl & Hs).
    destruct (re_match_complete s Hs Htl Hg Hn He Hso Hw) as [m' Hm'].
    rewrite Hm'. f_equal.
    apply re_match_sound in Hm'.
    destruct Hm' as (g' & n' & e' & so' & w' & tl' & Hs' & Htl' & Hg' & Hn' & He'
                     & Hso' & Hw' & ->).
    destruct (split_on_parts Htl' Hg' Hn' He' Hso' Hw') as [Hsp' _].
    rewrite <- Hs', Hsp in Hsp'. injection Hsp' as -> -> -> -> ->. reflexivity.
Qed.

(** ** The grid code pattern and the grammar of the specification *)

Lemma forallb_pointwise (p q : ascii -> bool) (w : list ascii) :
  (forall x, p x = q x) -> forallb p w = forallb q w.
Proof.
  intros H. induction w as [|x w IH]; cbn [forallb]; [reflexivity|].
  rewrite H, IH. reflexivity.
Qed.

Lemma in_class_PAD (x : ascii) : in_class PAD x = is_padding x.
Proof. ascii_cases x. Qed.

Lemma forallb_PAD (w : list ascii) : forallb (in_class PAD) w = forallb is_padding w.
Proof. apply forallb_pointwise, in_class_PAD. Qed.

Lemma in_class_plus (x : ascii) :
  in_class [CChar OLC_SEPARATOR_] x = true -> x = "+"%char.
Proof. ascii_cases x. Qed.

Lemma padding_not_letter (x : ascii) : is_padding x = true -> is_code_letter x = false.
Proof. ascii_cases x. Qed.

Lemma letter_not_padding (x : ascii) : is_code_letter x = true -> is_padding x = false.
Proof. ascii_cases x. Qed.

Lemma head_fails_paddings (w : list ascii) :
  forallb is_padding w = true -> head_fails is_code_letter w.
Proof.
  destruct w as [|x w]; cbn; [auto|]. intros H.
  apply andb_true_iff in H. apply padding_not_letter, H.
Qed.

Lemma span_app (p : ascii -> bool) (a b : list ascii) :
  forallb p a = true -> head_fails p b -> span p (a ++ b) = (a, b).
Proof.
  intros Ha Hb. induction a as [|x a IH]; cbn [app].
  - destruct b as [|y b]; cbn in *; [reflexivity | rewrite Hb; reflexivity].
  - cbn [forallb] in Ha. apply andb_true_iff in Ha. destruct Ha as [Hx Ha].
    cbn [span]. rewrite Hx, (IH Ha). reflexivity.
Qed.

Lemma span_spec (p : ascii -> bool) (w : list ascii) :
  w = fst (span p w) ++ snd (span p w)
  /\ forallb p (fst (span p w)) = true
  /\ head_fails p (snd (span p w)).
Proof.
  induction w as [|x w (IH1 & IH2 & IH3)]; cbn [span]; [cbn; auto|].
  destruct (p x) eqn:Hx; cbn [fst snd app forallb head_fails].
  - rewrite Hx, IH2, <- IH1. auto.
  - auto.
Qed.

Lemma lang_padding_tail (t : list ascii) :
  lang padding_tail t <-> spec_padded_tail t = true.
Proof.
  unfold padding_tail, spec_padded_tail. cbn [lang]. rewrite forallb_PAD. split.
  - intros [(Hall & Hlen & _)| ->]; [|reflexivity].
    destruct t; [reflexivity|]. rewrite Hall. apply Nat.leb_le in Hlen.
    rewrite Hlen. reflexivity.
  - destruct t as [|x t]; [auto|]. intros H.
    apply andb_true_iff in H. destruct H as [Hall Hlen].
    apply Nat.leb_le in Hlen. left. cbn [within]. auto.
Qed.

Lemma lang_full_tail (t : list ascii) :
  lang full_tail t <-> spec_full_tail t = true.
Proof.
  unfold full_tail, spec_full_tail, join. cbn [lang fold_right within].
  rewrite forallb_PAD. split.
  - intros [[(Hall & Hlen & _)
            |(w1 & w2 & -> & (Hl & Hlen & _) & (w3 & w4 & -> & (Hz & _) & ->))]
           | ->].
    + destruct t as [|x t]; [reflexivity|].
      pose proof (span_app is_code_letter [] (x :: t) eq_refl
                    (head_fails_paddings _ Hall)) as Hsp.
      cbn [app] in Hsp. cbv beta iota zeta. rewrite Hsp.
      cbn [fst snd]. rewrite Hall. apply Nat.leb_le in Hlen. rewrite Hlen. reflexivity.
    + rewrite List.app_nil_r. rewrite forallb_PAD in Hz.
      change (in_class ALPHA) with is_code_letter in Hl.
      rewrite (span_app is_code_letter w1 w3 Hl (head_fails_paddings _ Hz)).
      cbn [fst snd]. rewrite Hz. apply Nat.leb_le in Hlen.
      destruct w1 as [|x w1]; [cbn in Hlen; discriminate|].
      cbn [app]. rewrite Hlen. reflexivity.
    + reflexivity.
  - destruct t as [|x t]; [auto|]. intros H.
    destruct (span_spec is_code_letter (x :: t)) as (Hs & Hl & _).
    apply andb_true_iff in H. destruct H as [Hz Hlen].
    left. destruct (fst (span is_code_letter (x :: t))) as [|y l] eqn:El.
    + left. cbn [app] in Hs. rewrite <- Hs in Hz, Hlen.
      apply Nat.leb_le in Hlen. auto.
    + right. exists (y :: l), (snd (span is_code_letter (x :: t))).
      split; [exact Hs|]. apply Nat.leb_le in Hlen. split; [auto|].
      exists (snd (span is_code_letter (x :: t))), [].
      rewrite List.app_nil_r, forallb_PAD. repeat split; auto. lia.
Qed.

Lemma lang_pair (a : list ascii) :
  lang pair a <-> forallb is_code_letter a = true /\ List.length a = 2%nat.
Proof.
  unfold pair. cbn [lang within]. change (in_class ALPHA) with is_code_letter.
  split; intros H; decompose [and] H; repeat split; auto; lia.
Qed.

Lemma lang_padded_block (k : nat) (w : list ascii) :
  lang (padded_block k) w <->
  exists z t, w = z ++ "+"%char :: t /\ forallb is_padding z = true
              /\ List.length z = k /\ spec_padded_tail t = true.
Proof.
  unfold padded_block, join, Lit. cbn [fold_right].
  change (lang (Cat ?a (Cat ?b (Cat ?c Eps))) w)
    with (exists w1 w2, w = w1 ++ w2 /\ lang a w1
          /\ exists w3 w4, w2 = w3 ++ w4 /\ lang b w3
          /\ exists w5 w6, w4 = w5 ++ w6 /\ lang c w5 /\ w6 = []).
  split.
  - intros (z & w2 & -> & (Hz & Hlo & Hhi) & w3 & w4 & -> & (x & -> & Hx)
            & t & w6 & -> & Ht & ->).
    apply in_class_plus in Hx. subst x. rewrite forallb_PAD in Hz.
    cbn [within] in Hhi. apply lang_padding_tail in Ht.
    exists z, t. rewrite List.app_nil_r. repeat split; auto. lia.
  - intros (z & t & -> & Hz & Hlen & Ht).
    exists z, ("+"%char :: t). split; [reflexivity|]. split.
    { cbn [lang within]. rewrite forallb_PAD. repeat split; auto; lia. }
    exists ["+"%char], t. split; [reflexivity|]. split.
    { exists "+"%char. split; reflexivity. }
    exists t, []. rewrite List.app_nil_r. apply lang_padding_tail in Ht. auto.
Qed.

Lemma lang_Cat_Eps (r : regex) (w : list ascii) : lang (Cat r Eps) w <-> lang r w.
Proof.
  cbn [lang]. split.
  - intros (w1 & w2 & -> & H & ->). rewrite List.app_nil_r. exact H.
  - intros H. exists w, []. rewrite List.app_nil_r. auto.
Qed.

(** One level of the nesting: [k] paddings now, or a pair and what comes
    after it. *)
Lemma lang_level (k : nat) (r : regex) (w : list ascii) :
  lang (Alt (padded_block k) (Cat pair r)) w <->
  (exists z t, w = z ++ "+"%char :: t /\ forallb is_padding z = true
               /\ List.length z = k /\ spec_padded_tail t = true)
  \/ (exists a w', w = a ++ w' /\ forallb is_code_letter a = true
                   /\ List.length a = 2%nat /\ lang r w').
Proof.
  change (lang (Alt ?a (Cat ?b ?c)) w)
    with (lang a w \/ exists w1 w2, w = w1 ++ w2 /\ lang b w1 /\ lang c w2).
  rewrite lang_padded_block. split.
  - intros [H|(a & w' & -> & Ha & Hr)]; [left; exact H|].
    right. apply lang_pair in Ha. exists a, w'. tauto.
  - intros [H|(a & w' & -> & Ha & Hlen & Hr)]; [left; exact H|].
    right. exists a, w'. split; [reflexivity|]. split; [apply lang_pair; auto|].
    exact Hr.
Qed.

Lemma spec_gridcode_intro (c1 c2 : ascii) (a z t : list ascii) :
  in_class (bracket (substring 0 9 CODE_ALPHABET_)) c1 = true ->
  in_class (bracket (substring 0 18 CODE_ALPHABET_)) c2 = true ->
  forallb is_code_letter a = true -> forallb is_padding z = true ->
  (List.length a + List.length z = 6)%nat -> Nat.even (List.length a) = true ->
  match z with [] => spec_full_tail t | _ => spec_padded_tail t end = true ->
  spec_gridcode (c1 :: c2 :: a ++ z ++ "+"%char :: t) = true.
Proof.
  intros H1 H2 Ha Hz Hlen Hev Ht. unfold spec_gridcode. rewrite H1, H2.
  assert (Hh : head_fails is_code_letter (z ++ "+"%char :: t)).
  { destruct z as [|x z]; cbn; [reflexivity|].
    cbn in Hz. apply andb_true_iff in Hz. apply padding_not_letter, Hz. }
  rewrite (span_app is_code_letter a _ Ha Hh). cbn [fst snd].
  rewrite (span_app is_padding z ("+"%char :: t) Hz eq_refl). cbn [fst snd].
  rewrite Hev. apply Nat.eqb_eq in Hlen. rewrite Hlen. exact Ht.
Qed.

Lemma spec_gridcode_elim (g : list ascii) :
  spec_gridcode g = true ->
  exists c1 c2 a z t,
    g = c1 :: c2 :: a ++ z ++ "+"%char :: t
    /\ in_class (bracket (substring 0 9 CODE_ALPHABET_)) c1 = true
    /\ in_class (bracket (substring 0 18 CODE_ALPHABET_)) c2 = true
    /\ forallb is_code_letter a = true /\ forallb is_padding z = true
    /\ (List.length a + List.length z = 6)%nat /\ Nat.even (List.length a) = true
    /\ match z with [] => spec_full_tail t | _ => spec_padded_tail t end = true.
Proof.
  destruct g as [|c1 [|c2 w]]; try discriminate. unfold spec_gridcode.
  intros H. apply andb_true_iff in H. destruct H as [H12 H].
  apply andb_true_iff in H12. destruct H12 as [H1 H2]. cbv zeta in H.
  destruct (span_spec is_code_letter w) as (Hw & Ha & _).
  destruct (span_spec is_padding (snd (span is_code_letter w))) as (Hw1 & Hz & _).
  destruct (snd (span is_padding (snd (span is_code_letter w)))) as [|p t] eqn:Et;
    [discriminate|].
  apply andb_true_iff in H. destruct H as [H Ht].
  apply andb_true_iff in H. destruct H as [H Hev].
  apply andb_true_iff in H. destruct H as [Hp Hlen].
  apply Ascii.eqb_eq in Hp. subst p. apply Nat.eqb_eq in Hlen.
  exists c1, c2, (fst (span is_code_letter w)),
    (fst (span is_padding (snd (span is_code_letter w)))), t.
  split.
  { do 2 f_equal.
    transitivity (fst (span is_code_letter w) ++ snd (span is_code_letter w));
      [exact Hw|]. f_equal. exact Hw1. }
  auto 10.
Qed.

(** The words of the grid code pattern are the grid codes the specification
    describes. *)
Lemma lang_gridcode_iff (g : list ascii) :
  lang gridcode_re g <-> spec_gridcode g = true.
Proof.
  unfold gridcode_re, join. cbn [fold_right].
  change (lang (Cat (Cls ?a) (Cat (Cls ?b) (Cat ?c Eps))) g)
    with (exists w1 w2, g = w1 ++ w2 /\ (exists x, w1 = [x] /\ in_class a x = true)
          /\ exists w3 w4, w2 = w3 ++ w4 /\ (exists x, w3 = [x] /\ in_class b x = true)
          /\ exists w5 w6, w4 = w5 ++ w6 /\ lang c w5 /\ w6 = []).
  split.
  - intros (w1 & w2 & -> & (c1 & -> & H1) & w3 & w4 & -> & (c2 & -> & H2)
            & w & w6 & -> & Hw & ->).
    rewrite List.app_nil_r. cbn [app].
    apply lang_level in Hw.
    destruct Hw as [(z & t & -> & Hz & Hlen & Ht)|(a1 & w' & -> & Ha1 & L1 & Hw)].
    { apply (spec_gridcode_intro c1 c2 [] z t); auto.
      destruct z; [discriminate | exact Ht]. }
    apply lang_Cat_Eps, lang_level in Hw.
    destruct Hw as [(z & t & -> & Hz & Hlen & Ht)|(a2 & w'' & -> & Ha2 & L2 & Hw)].
    { apply (spec_gridcode_intro c1 c2 a1 z t); auto.
      - lia.
      - rewrite L1. reflexivity.
      - destruct z; [discriminate | exact Ht]. }
    apply lang_Cat_Eps, lang_level in Hw.
    destruct Hw as [(z & t & -> & Hz & Hlen & Ht)|(a3 & w3 & -> & Ha3 & L3 & Hw)].
    { rewrite List.app_assoc.
      apply (spec_gridcode_intro c1 c2 (a1 ++ a2) z t); auto.
      - rewrite forallb_app, Ha1, Ha2. reflexivity.
      - rewrite length_app. lia.
      - rewrite length_app, L1, L2. reflexivity.
      - destruct z; [discriminate | exact Ht]. }
    change (lang (Cat ?b (Cat ?c Eps)) w3)
      with (exists w1 w2, w3 = w1 ++ w2 /\ lang b w1
            /\ exists w5 w6, w2 = w5 ++ w6 /\ lang c w5 /\ w6 = []) in Hw.
    destruct Hw as (w1 & w2 & -> & (x & -> & Hx) & t & w6 & -> & Ht & ->).
    apply in_class_plus in Hx. subst x. apply lang_full_tail in Ht.
    rewrite List.app_nil_r. cbn [app].
    replace (a1 ++ a2 ++ a3 ++ "+"%char :: t)
      with ((a1 ++ a2 ++ a3) ++ [] ++ "+"%char :: t)
      by (cbn [app]; rewrite <- !List.app_assoc; reflexivity).
    apply (spec_gridcode_intro c1 c2 (a1 ++ a2 ++ a3) [] t); auto.
    + rewrite !forallb_app, Ha1, Ha2, Ha3. reflexivity.
    + rewrite !length_app. cbn. lia.
    + rewrite !length_app, L1, L2, L3. reflexivity.
  - intros H. apply spec_gridcode_elim in H.
    destruct H as (c1 & c2 & a & z & t & -> & H1 & H2 & Ha & Hz & Hlen & Hev & Ht).
    exists [c1], (c2 :: a ++ z ++ "+"%char :: t). split; [reflexivity|].
    split; [eauto|].
    exists [c2], (a ++ z ++ "+"%char :: t). split; [reflexivity|].
    split; [eauto|].
    exists (a ++ z ++ "+"%char :: t), []. rewrite List.app_nil_r.
    split; [reflexivity|]. split; [|reflexivity].
    assert (Hzt : z <> [] ->
                  exists z' t', z ++ "+"%char :: t = z' ++ "+"%char :: t'
                                /\ forallb is_padding z' = true
                                /\ List.length z' = List.length z
                                /\ spec_padded_tail t' = true).
    { intros Hne. exists z, t. destruct z; [congruence | auto]. }
    destruct a as [|x1 [|x2 [|x3 [|x4 [|x5 [|x6 [|x7 a]]]]]]]; cbn [List.length] in *;
      try discriminate; try lia.
    + apply lang_level. left. cbn [app].
      destruct Hzt as (z' & t' & -> & ? & ? & ?); [destruct z; cbn in *; [lia|congruence]|].
      exists z', t'. repeat split; auto. lia.
    + apply lang_level. right. exists [x1; x2], (z ++ "+"%char :: t).
      cbn [forallb] in Ha. apply andb_true_iff in Ha. destruct Ha as [A1 Ha].
      apply andb_true_iff in Ha. destruct Ha as [A2 _].
      split; [reflexivity|]. split; [cbn [forallb]; rewrite A1, A2; reflexivity|].
      split; [reflexivity|].
      apply lang_Cat_Eps, lang_level. left.
      destruct Hzt as (z' & t' & -> & ? & ? & ?); [destruct z; cbn in *; [lia|congruence]|].
      exists z', t'. repeat split; auto. lia.
    + cbn [forallb] in Ha. apply andb_true_iff in Ha. destruct Ha as [A1 Ha].
      apply andb_true_iff in Ha. destruct Ha as [A2 Ha].
      apply andb_true_iff in Ha. destruct Ha as [A3 Ha].
      apply andb_true_iff in Ha. destruct Ha as [A4 _].
      apply lang_level. right. exists [x1; x2], ([x3; x4] ++ z ++ "+"%char :: t).
      split; [reflexivity|]. split; [cbn [forallb]; rewrite A1, A2; reflexivity|].
      split; [reflexivity|].
      apply lang_Cat_Eps, lang_level. right. exists [x3; x4], (z ++ "+"%char :: t).
      split; [reflexivity|]. split; [cbn [forallb]; rewrite A3, A4; reflexivity|].
      split; [reflexivity|].
      apply lang_Cat_Eps, lang_level. left.
      destruct Hzt as (z' & t' & -> & ? & ? & ?); [destruct z; cbn in *; [lia|congruence]|].
      exists z', t'. repeat split; auto. lia.
    + cbn [forallb] in Ha. apply andb_true_iff in Ha. destruct Ha as [A1 Ha].
      apply andb_true_iff in Ha. destruct Ha as [A2 Ha].
      apply andb_true_iff in Ha. destruct Ha as [A3 Ha].
      apply andb_true_iff in Ha. destruct Ha as [A4 Ha].
      apply andb_true_iff in Ha. destruct Ha as [A5 Ha].
      apply andb_true_iff in Ha. destruct Ha as [A6 _].
      destruct z as [|? ?]; [|cbn in Hlen; lia]. cbn [app] in *.
      apply lang_level. right. exists [x1; x2], ([x3; x4; x5; x6] ++ "+"%char :: t).
      split; [reflexivity|]. split; [cbn [forallb]; rewrite A1, A2; reflexivity|].
      split; [reflexivity|].
      apply lang_Cat_Eps, lang_level. right. exists [x3; x4], ([x5; x6] ++ "+"%char :: t).
      split; [reflexivity|]. split; [cbn [forallb]; rewrite A3, A4; reflexivity|].
      split; [reflexivity|].
      apply lang_Cat_Eps, lang_level. right. exists [x5; x6], ("+"%char :: t).
      split; [reflexivity|]. split; [cbn [forallb]; rewrite A5, A6; reflexivity|].
      split; [reflexivity|].
      exists ["+"%char], t. split; [reflexivity|].
      split; [exists "+"%char; split; reflexivity|].
      exists t, []. rewrite List.app_nil_r. apply lang_full_tail in Ht.
      split; [reflexivity | split; [exact Ht | reflexivity]].
Qed.

(** ** The validator, characterised

    X1: [isValid] accepts exactly the strings that, once a final newline
    is dropped, are identifiers of the grammar, and whose grid code the grid
    engine accepts.  Without the dropped newline this is C1. *)
Theorem isValid_characterisation (E : GridEngine) (s : string) :
  isValid (Some s) = spec_ubid (chomp s) && olc_isValid (spec_gridcode_of s).
Proof.
  unfold isValid, isValid_, spec_ubid, chomp, spec_gridcode_of.
  rewrite list_ascii_of_string_of_list_ascii.
  destruct (re_match RE_PATTERN_ s) as [m|] eqn:Hm.
  - apply re_match_sound in Hm.
    destruct Hm as (g & n & e & so & w & tl & Hs & Htl & Hg & Hn & He & Hso & Hw & ->).
    destruct (split_on_parts Htl Hg Hn He Hso Hw) as [Hsp Hhd].
    rewrite Hs, Hsp, Hhd.
    apply lang_gridcode_iff in Hg. apply lang_extent_iff in Hn, He, Hso, Hw.
    rewrite Hg, Hn, He, Hso, Hw.
    change (group _ RE_GROUP_OPENLOCATIONCODE_) with (string_of_list_ascii g).
    destruct (olc_isValid (string_of_list_ascii g)); reflexivity.
  - destruct (split_on SEPARATOR_ (chomp_list (list_ascii_of_string s)))
      as [|g [|n [|e [|so [|w [|x l]]]]]] eqn:Hsp; try reflexivity.
    destruct (spec_gridcode g) eqn:Hg; [|reflexivity].
    destruct (spec_extent n) eqn:Hn; [|reflexivity].
    destruct (spec_extent e) eqn:He; [|reflexivity].
    destruct (spec_extent so) eqn:Hso; [|reflexivity].
    destruct (spec_extent w) eqn:Hw; [|reflexivity].
    exfalso. apply lang_gridcode_iff in Hg.
    assert (H : re_match RE_PATTERN_ s = Some (groups_of g n e so w)).
    { apply re_match_iff. exists g, n, e, so, w. auto 10. }
    congruence.
Qed.

(** ** Numerals *)

Lemma digits_of_uint (d : Decimal.uint) :
  forallb is_digit (list_ascii_of_string (NilEmpty.string_of_uint d)) = true.
Proof. induction d; cbn; auto. Qed.

Lemma int_acc_uint (d : Decimal.uint) :
  forall p, int_acc (Z.pos p) (list_ascii_of_string (NilEmpty.string_of_uint d))
            = Some (Z.pos (Pos.of_uint_acc d p)).
Proof.
  induction d; intros p;
    cbn [NilEmpty.string_of_uint list_ascii_of_string int_acc Pos.of_uint_acc];
    [reflexivity|..];
    match goal with
    | |- context [is_digit ?c] => change (is_digit c) with true; cbv iota
    end;
    match goal with
    | |- int_acc ?z _ = Some (Z.pos (Pos.of_uint_acc _ ?q)) =>
        replace z with (Z.pos q)
          by (match goal with
              | |- context [digit_value ?c] =>
                  let v := eval vm_compute in (digit_value c) in
                  change (digit_value c) with v
              end; lia)
    end;
    apply IHd.
Qed.

Lemma int_acc_uint_zero (d : Decimal.uint) :
  int_acc 0 (list_ascii_of_string (NilEmpty.string_of_uint d))
  = Some (Z.of_N (Pos.of_uint d)).
Proof.
  induction d;
    cbn [NilEmpty.string_of_uint list_ascii_of_string int_acc Pos.of_uint];
    [reflexivity|..];
    match goal with
    | |- context [is_digit ?c] => change (is_digit c) with true; cbv iota
    end;
    [exact IHd|..];
    match goal with
    | |- int_acc ?z _ = Some (Z.of_N (N.pos (Pos.of_uint_acc _ ?q))) =>
        change z with (Z.pos q)
    end;
    apply int_acc_uint.
Qed.

Lemma to_uint_nonnil (n : N) : N.to_uint n <> Decimal.Nil.
Proof.
  destruct n as [|p]; cbn; [discriminate|]. apply Unsigned.to_uint_nonnil.
Qed.

(** The numeral of [n], read by [int], is [n]: no digit is lost, however
    many there are. *)
Lemma py_int_dec (n : N) : py_int (dec n) = Return (Z.of_N n).
Proof.
  unfold py_int, dec.
  pose proof (int_acc_uint_zero (N.to_uint n)) as H.
  pose proof (to_uint_nonnil n) as Hn.
  change (Pos.of_uint (N.to_uint n)) with (N.of_uint (N.to_uint n)) in H.
  rewrite DecimalN.Unsigned.of_to in H.
  destruct (list_ascii_of_string (NilEmpty.string_of_uint (N.to_uint n))) eqn:Hl.
  - destruct (N.to_uint n); [congruence|..]; discriminate Hl.
  - rewrite H. reflexivity.
Qed.

Lemma spec_extent_nzhead (d : Decimal.uint) :
  Decimal.nzhead d = Decimal.Nil
  \/ spec_extent (list_ascii_of_string (NilEmpty.string_of_uint (Decimal.nzhead d)))
     = true.
Proof.
  induction d; cbn [Decimal.nzhead]; [left; reflexivity | exact IHd |..];
    right; cbn [NilEmpty.string_of_uint list_ascii_of_string spec_extent];
    apply digits_of_uint.
Qed.

(** The numeral of a natural number is an extent group of the grammar. *)
Lemma spec_extent_dec (n : N) : spec_extent (list_ascii_of_string (dec n)) = true.
Proof.
  unfold dec.
  assert (H : N.to_uint n = Decimal.unorm (N.to_uint n)).
  { rewrite <- (DecimalN.Unsigned.to_of (N.to_uint n)).
    rewrite DecimalN.Unsigned.of_to. reflexivity. }
  rewrite H. unfold Decimal.unorm.
  destruct (spec_extent_nzhead (N.to_uint n)) as [-> | Hs]; [reflexivity|].
  destruct (Decimal.nzhead (N.to_uint n)); [reflexivity|..]; exact Hs.
Qed.

Lemma dec_inj (n n' : N) : dec n = dec n' -> n = n'.
Proof.
  intros H. apply (f_equal py_int) in H. rewrite !py_int_dec in H.
  injection H as H. lia.
Qed.

Lemma round_half_even_inject (z : Z) : round_half_even (inject_Z z) = z.
Proof.
  unfold round_half_even. cbv zeta. rewrite Qfloor_Z.
  assert (H : Qcompare (inject_Z z - inject_Z z) (1 # 2) = Lt)
    by (unfold Qcompare, Qminus, Qplus, Qopp, inject_Z; cbn [Qnum Qden];
        apply Z.compare_lt_iff; lia).
  rewrite H. reflexivity.
Qed.



Lemma format_0f_integer (n : N) : format_0f (inject_Z (Z.of_N n)) = dec n.
Proof.
  unfold format_0f.
  assert (Hq : Qgeb (inject_Z (Z.of_N n)) 0 = true).
  { apply Qgeb_true. change 0 with (inject_Z 0). rewrite <- Zle_Qle. lia. }
  rewrite Hq, round_half_even_inject, N2Z.id. reflexivity.
Qed.

(** ** Extents of any size *)

Lemma list_ascii_of_string_app (a b : string) :
  list_ascii_of_string (a ++ b)%string
  = list_ascii_of_string a ++ list_ascii_of_string b.
Proof. induction a as [|c a IH]; simpl; [reflexivity | f_equal; exact IH]. Qed.

(** The characters of a written identifier. *)
Lemma ubid_text_chars (g : string) (n e s w : N) :
  list_ascii_of_string (ubid_text g n e s w)
  = list_ascii_of_string g
      ++ "-"%char :: list_ascii_of_string (dec n)
      ++ "-"%char :: list_ascii_of_string (dec e)
      ++ "-"%char :: list_ascii_of_string (dec s)
      ++ "-"%char :: list_ascii_of_string (dec w) ++ [].
Proof.
  unfold ubid_text. rewrite !list_ascii_of_string_app, List.app_nil_r. reflexivity.
Qed.

(** A grid code of the grammar followed by four numerals is matched, and
    the groups of the match are the grid code and the numerals. *)
Lemma re_match_ubid_text (g : string) (n e s w : N) :
  spec_gridcode (list_ascii_of_string g) = true ->
  re_match RE_PATTERN_ (ubid_text g n e s w)
  = Some (groups_of (list_ascii_of_string g)
            (list_ascii_of_string (dec n)) (list_ascii_of_string (dec e))
            (list_ascii_of_string (dec s)) (list_ascii_of_string (dec w))).
Proof.
  intros Hg. apply re_match_iff.
  exists (list_ascii_of_string g), (list_ascii_of_string (dec n)),
    (list_ascii_of_string (dec e)), (list_ascii_of_string (dec s)),
    (list_ascii_of_string (dec w)).
  apply lang_gridcode_iff in Hg.
  split; [|repeat split; auto using spec_extent_dec].
  rewrite ubid_text_chars.
  apply split_on_parts; auto; apply lang_extent_iff, spec_extent_dec.
Qed.

Lemma isValid__ubid_text (E : GridEngine) (g : string) (n e s w : N) :
  spec_gridcode (list_ascii_of_string g) = true ->
  olc_isValid g = true ->
  isValid_ (Some (ubid_text g n e s w))
  = Some (groups_of (list_ascii_of_string g)
            (list_ascii_of_string (dec n)) (list_ascii_of_string (dec e))
            (list_ascii_of_string (dec s)) (list_ascii_of_string (dec w))).
Proof.
  intros Hg Hv. unfold isValid_. rewrite (re_match_ubid_text g n e s w Hg).
  change (group _ RE_GROUP_OPENLOCATIONCODE_)
    with (string_of_list_ascii (list_ascii_of_string g)).
  rewrite string_of_list_ascii_of_string, Hv. reflexivity.
Qed.


(** The format string writes a count that is not negative as the numeral
    of the count rounded, all its digits. *)
Lemma FORMAT_STRING__ubid_text (olc : string) (north east south west : Q) :
  0 <= north -> 0 <= east -> 0 <= south -> 0 <= west ->
  FORMAT_STRING_ olc north east south west
  = ubid_text olc (Z.to_N (round_half_even north)) (Z.to_N (round_half_even east))
      (Z.to_N (round_half_even south)) (Z.to_N (round_half_even west)).
Proof.
  intros Hn He Hs Hw. apply Qgeb_true in Hn, He, Hs, Hw.
  unfold FORMAT_STRING_, ubid_text, format_0f. rewrite Hn, He, Hs, Hw. reflexivity.
Qed.

(** A forty-digit extent by evaluation: the identifier is accepted, and
    [int] reads its north group as the number itself. *)
Remark long_ubid_read :
  isValid (E := sample_engine) (Some long_ubid) = true
  /\ (match isValid_ (E := sample_engine) (Some long_ubid) with
      | Some m => py_int (group m RE_GROUP_NORTH_)
      | None => Raise ValueError
      end) = Return (Z.of_N forty_digits).
Proof. split; vm_compute; reflexivity. Qed.



(** * Further properties of the module *)

(** ** Geometry of areas *)

Lemma pymax_le_iff (a b x : Q) : pymax a b <= x <-> a <= x /\ b <= x.
Proof. destruct (pymax_cases a b) as [[H ->]|[H ->]]; split; intros; try split; lra. Qed.

Lemma pymin_ge_iff (a b x : Q) : x <= pymin a b <-> x <= a /\ x <= b.
Proof. destruct (pymin_cases a b) as [[H ->]|[H ->]]; split; intros; try split; lra. Qed.

Lemma pymax_comm (a b : Q) : pymax a b == pymax b a.
Proof.
  destruct (pymax_cases a b) as [[H ->]|[H ->]];
    destruct (pymax_cases b a) as [[H' ->]|[H' ->]]; lra.
Qed.

Lemma pymin_comm (a b : Q) : pymin a b == pymin b a.
Proof.
  destruct (pymin_cases a b) as [[H ->]|[H ->]];
    destruct (pymin_cases b a) as [[H' ->]|[H' ->]]; lra.
Qed.

(** Whether [intersection] returns a rectangle, in terms of the bounds. *)
Lemma intersection_some_iff (a b : CodeArea) :
  (exists r, intersection a (Some b) = Some r)
  <-> pymax (latitudeLo a) (latitudeLo b) <= pymin (latitudeHi a) (latitudeHi b)
      /\ pymax (longitudeLo a) (longitudeLo b) <= pymin (longitudeHi a) (longitudeHi b).
Proof.
  destruct (intersection a (Some b)) as [r|] eqn:Hi.
  - split; [|eauto]. intros _.
    assert (Hn : intersection a (Some b) <> None) by congruence.
    rewrite intersection_none in Hn. split; apply Qnot_lt_le; tauto.
  - apply intersection_none in Hi. split.
    + intros [r Hr]. discriminate.
    + intros [H1 H2]. destruct Hi; lra.
Qed.

(** X13: [intersection] is the set intersection of the two boxes, edges
    included: a point lies in the rectangle returned exactly when it lies in
    both boxes; so the result is [None] exactly when no point lies in
    both. *)
Theorem intersection_points (a b : CodeArea) (lat lon : Q) :
  (area_contains a lat lon /\ area_contains b lat lon)
  <-> exists r, intersection a (Some b) = Some r /\ in_rect r lat lon.
Proof.
  unfold area_contains. split.
  - intros [(A1 & A2 & A3 & A4) (B1 & B2 & B3 & B4)].
    assert (L1 : pymax (latitudeLo a) (latitudeLo b) <= lat) by (apply pymax_le_iff; auto).
    assert (L2 : lat <= pymin (latitudeHi a) (latitudeHi b)) by (apply pymin_ge_iff; auto).
    assert (L3 : pymax (longitudeLo a) (longitudeLo b) <= lon) by (apply pymax_le_iff; auto).
    assert (L4 : lon <= pymin (longitudeHi a) (longitudeHi b)) by (apply pymin_ge_iff; auto).
    destruct (proj2 (intersection_some_iff a b)) as [r Hr]; [split; lra|].
    exists r. split; [exact Hr|].
    apply intersection_some in Hr. subst r. unfold in_rect. auto.
  - intros (r & Hr & Hin). apply intersection_some in Hr. subst r.
    unfold in_rect in Hin. destruct Hin as (L1 & L2 & L3 & L4).
    apply pymax_le_iff in L1, L3. apply pymin_ge_iff in L2, L4. tauto.
Qed.

(** X14: [intersection] does not depend on the order of the two areas: both
    orders give [None], or the same rectangle. *)
Theorem intersection_comm (a b : CodeArea) :
  same_rect (intersection a (Some b)) (intersection b (Some a)).
Proof.
  pose proof (intersection_some_iff a b) as Hab.
  pose proof (intersection_some_iff b a) as Hba.
  pose proof (pymax_comm (latitudeLo a) (latitudeLo b)) as C1.
  pose proof (pymin_comm (latitudeHi a) (latitudeHi b)) as C2.
  pose proof (pymax_comm (longitudeLo a) (longitudeLo b)) as C3.
  pose proof (pymin_comm (longitudeHi a) (longitudeHi b)) as C4.
  destruct (intersection a (Some b)) as [r|] eqn:Ha;
    destruct (intersection b (Some a)) as [r'|] eqn:Hb; cbn [same_rect].
  - apply intersection_some in Ha, Hb. subst r r'. auto.
  - destruct (proj1 Hab) as [H1 H2]; [eauto|].
    destruct (proj2 Hba) as [x Hx]; [split; lra | discriminate].
  - destruct (proj1 Hba) as [H1 H2]; [eauto|].
    destruct (proj2 Hab) as [x Hx]; [split; lra | discriminate].
  - exact I.
Qed.

(** ** The Jaccard coefficient *)

Lemma fdiv_cases (a b : Q) :
  (b == 0 /\ fdiv a b = Raise ZeroDivisionError)
  \/ (~ b == 0 /\ fdiv a b = Return (a / b)).
Proof.
  unfold fdiv. destruct (Qeq_bool b 0) eqn:Hb.
  - left. apply Qeq_bool_iff in Hb. auto.
  - right. split; [|reflexivity]. intros H. apply Qeq_bool_iff in H. congruence.
Qed.

(** [jaccard] in terms of the overlap. *)
Lemma jaccard_overlap (a b : CodeArea) :
  jaccard a (Some b)
  = match intersection a (Some b) with
    | None => Return None
    | Some _ =>
        do j <- fdiv (overlap a b) (area a + area b - overlap a b);
        Return (Some j)
    end.
Proof.
  unfold jaccard. destruct (intersection a (Some b)) as [r|] eqn:Hi; [|reflexivity].
  apply intersection_some in Hi. subst r. reflexivity.
Qed.

Lemma overlap_comm (a b : CodeArea) : overlap a b == overlap b a.
Proof.
  unfold overlap.
  rewrite (pymin_comm (latitudeHi a)), (pymax_comm (latitudeLo a)),
    (pymin_comm (longitudeHi a)), (pymax_comm (longitudeLo a)).
  reflexivity.
Qed.


(** X15: [jaccard] does not depend on the order of the two areas: both orders
    give [None], the same coefficient, or the same exception. *)
Theorem jaccard_comm (a b : CodeArea) :
  same_outcome (jaccard a (Some b)) (jaccard b (Some a)).
Proof.
  rewrite !jaccard_overlap.
  pose proof (intersection_some_iff a b) as Hab.
  pose proof (intersection_some_iff b a) as Hba.
  pose proof (pymax_comm (latitudeLo a) (latitudeLo b)) as C1.
  pose proof (pymin_comm (latitudeHi a) (latitudeHi b)) as C2.
  pose proof (pymax_comm (longitudeLo a) (longitudeLo b)) as C3.
  pose proof (pymin_comm (longitudeHi a) (longitudeHi b)) as C4.
  pose proof (overlap_comm a b) as Ho.
  destruct (intersection a (Some b)) as [r|] eqn:Ha;
    destruct (intersection b (Some a)) as [r'|] eqn:Hb.
  - destruct (fdiv_cases (overlap a b) (area a + area b - overlap a b)) as [[Hz ->]|[Hz ->]];
      destruct (fdiv_cases (overlap b a) (area b + area a - overlap b a)) as [[Hz' ->]|[Hz' ->]];
      cbn [bind same_outcome].
    + reflexivity.
    + exfalso. apply Hz'. rewrite <- Ho. lra.
    + exfalso. apply Hz. rewrite Ho. lra.
    + rewrite Ho. apply Qmult_comp; [reflexivity|]. apply Qinv_comp. lra.
  - destruct (proj1 Hab) as [H1 H2]; [eauto|].
    destruct (proj2 Hba) as [x Hx]; [split; lra | discriminate].
  - destruct (proj1 Hba) as [H1 H2]; [eauto|].
    destruct (proj2 Hab) as [x Hx]; [split; lra | discriminate].
  - exact I.
Qed.






(** ** The decoder, further *)

Lemma extent_of_py_int (m : captures) (k : nat) (z : Z) :
  py_int (group m k) = Return z -> extent_of m k = z.
Proof. unfold extent_of. intros ->. reflexivity. Qed.

(** X6: The box of a decoded area is [north + south + 1] cells high and
    [east + west + 1] cells wide, the extents being the four integers of the
    identifier and the cell that of its grid code; its area is that many
    cells. *)
Theorem decode_dimensions (E : GridEngine) (code : option string) (a : CodeArea) :
  decode code = Return a ->
  exists m,
    isValid_ code = Some m
    /\ latitudeHi a - latitudeLo a
       == inject_Z (extent_of m RE_GROUP_NORTH_ + extent_of m RE_GROUP_SOUTH_ + 1)
          * (olc_latitudeHi (centroid a) - olc_latitudeLo (centroid a))
    /\ longitudeHi a - longitudeLo a
       == inject_Z (extent_of m RE_GROUP_EAST_ + extent_of m RE_GROUP_WEST_ + 1)
          * (olc_longitudeHi (centroid a) - olc_longitudeLo (centroid a))
    /\ area a
       == inject_Z ((extent_of m RE_GROUP_NORTH_ + extent_of m RE_GROUP_SOUTH_ + 1)
                    * (extent_of m RE_GROUP_EAST_ + extent_of m RE_GROUP_WEST_ + 1))
          * ((olc_latitudeHi (centroid a) - olc_latitudeLo (centroid a))
             * (olc_longitudeHi (centroid a) - olc_longitudeLo (centroid a))).
Proof.
  intros H. apply decode_Return in H.
  destruct H as (m & c & south & north & west & east & Hm & _ & _ & _ & _
                 & Hs & Hn & Hw & He & -> & _ & _).
  exists m. split; [exact Hm|].
  rewrite (extent_of_py_int _ _ Hs), (extent_of_py_int _ _ Hn),
    (extent_of_py_int _ _ Hw), (extent_of_py_int _ _ He).
  unfold area. cbn [centroid latitudeLo latitudeHi longitudeLo longitudeHi].
  rewrite inject_Z_mult, !inject_Z_plus. change (inject_Z 1) with 1.
  repeat split; ring.
Qed.

Lemma decode_dimensions_witness :
  exists a m,
    decode (E := sample_engine) (Some sample_ubid) = Return a
    /\ isValid_ (E := sample_engine) (Some sample_ubid) = Some m
    /\ latitudeHi a - latitudeLo a
       == inject_Z (extent_of m RE_GROUP_NORTH_ + extent_of m RE_GROUP_SOUTH_ + 1)
          * (olc_latitudeHi (centroid a) - olc_latitudeLo (centroid a))
    /\ extent_of m RE_GROUP_NORTH_ = 51%Z /\ extent_of m RE_GROUP_SOUTH_ = 42%Z.
Proof.
  assert (Hd : exists a, decode (E := sample_engine) (Some sample_ubid) = Return a)
    by (eexists; vm_compute; reflexivity).
  destruct Hd as [a Hd].
  destruct (@decode_dimensions sample_engine (Some sample_ubid) a Hd)
    as (m & Hm & Hh & _).
  exists a, m. split; [exact Hd|]. split; [exact Hm|]. split; [exact Hh|].
  vm_compute in Hm. injection Hm as <-. split; reflexivity.
Defined.

Lemma split_on_app_any (sep : ascii) (a b : list ascii) :
  split_on sep (a ++ sep :: b) = split_on sep a ++ split_on sep b.
Proof.
  induction a as [|c a IH]; cbn [app split_on].
  - rewrite Ascii.eqb_refl. reflexivity.
  - rewrite IH. destruct (Ascii.eqb c sep); [reflexivity|].
    destruct (split_on sep a) as [|p ps] eqn:Ea; [|reflexivity].
    exfalso. revert Ea. apply split_on_nonempty.
Qed.

Lemma dec_digits (n : N) :
  list_ascii_of_string (dec n) <> []
  /\ forall x, In x (list_ascii_of_string (dec n)) -> is_digit x = true.
Proof.
  destruct (spec_extent_digits _ (spec_extent_dec n)) as [H1 H2].
  split; [exact H1|]. apply forallb_forall, H2.
Qed.

Lemma dec_avoids (n : N) (c : ascii) :
  is_digit c = false -> ~ In c (list_ascii_of_string (dec n)).
Proof.
  intros Hc Hin. apply (proj2 (dec_digits n)) in Hin. congruence.
Qed.

(** A written identifier, split at [-]: the parts of the grid code, then
    the four numerals. *)
Lemma split_on_ubid_text (g : string) (n e s w : N) :
  split_on SEPARATOR_ (chomp_list (list_ascii_of_string (ubid_text g n e s w)))
  = split_on SEPARATOR_ (list_ascii_of_string g)
      ++ [list_ascii_of_string (dec n); list_ascii_of_string (dec e);
          list_ascii_of_string (dec s); list_ascii_of_string (dec w)].
Proof.
  rewrite ubid_text_chars, List.app_nil_r.
  change (list_ascii_of_string g ++ "-"%char :: list_ascii_of_string (dec n)
            ++ "-"%char :: list_ascii_of_string (dec e)
            ++ "-"%char :: list_ascii_of_string (dec s)
            ++ "-"%char :: list_ascii_of_string (dec w))
    with (list_ascii_of_string g ++ ["-"%char] ++ list_ascii_of_string (dec n)
            ++ ["-"%char] ++ list_ascii_of_string (dec e)
            ++ ["-"%char] ++ list_ascii_of_string (dec s)
            ++ ["-"%char] ++ list_ascii_of_string (dec w)).
  rewrite !List.app_assoc.
  rewrite chomp_list_app by apply dec_digits.
  rewrite chomp_list_no_newline by (apply dec_avoids; reflexivity).
  rewrite <- !List.app_assoc. cbn [app].
  rewrite split_on_app_any. f_equal.
  rewrite !split_on_app_sep by (apply dec_avoids; reflexivity).
  rewrite split_on_no_sep by (apply dec_avoids; reflexivity).
  reflexivity.
Qed.

(** When a written identifier is matched, its grid code is one of the
    grammar and the groups are the grid code and the numerals. *)
Lemma re_match_ubid_text_inv (g : string) (n e s w : N) (m : captures) :
  re_match RE_PATTERN_ (ubid_text g n e s w) = Some m ->
  spec_gridcode (list_ascii_of_string g) = true.
Proof.
  intros Hm. apply re_match_iff in Hm.
  destruct Hm as (g' & n' & e' & so' & w' & Hsp & Hg & _).
  rewrite split_on_ubid_text in Hsp.
  pose proof (join_on_split_on SEPARATOR_ (list_ascii_of_string g)) as Hj.
  destruct (split_on SEPARATOR_ (list_ascii_of_string g)) as [|p [|q ps]] eqn:Es.
  - discriminate.
  - cbn [app] in Hsp. injection Hsp as <- _ _ _ _. cbn [join_on] in Hj. subst p.
    apply lang_gridcode_iff, Hg.
  - exfalso. apply (f_equal (@List.length _)) in Hsp.
    cbn [app List.length] in Hsp. rewrite List.length_app in Hsp.
    cbn [List.length] in Hsp. lia.
Qed.

(** What [decode] returns on a written identifier. *)
Lemma decode_ubid_text (E : GridEngine) (g : string) (n e s w : N) (a : CodeArea) :
  decode (Some (ubid_text g n e s w)) = Return a ->
  exists c,
    spec_gridcode (list_ascii_of_string g) = true
    /\ olc_isValid g = true
    /\ olc_decode g = Return c
    /\ isValidCodeArea c = true
    /\ 0 <= olc_latitudeHi c - olc_latitudeLo c
    /\ 0 <= olc_longitudeHi c - olc_longitudeLo c
    /\ a = mkCodeArea c
             (olc_latitudeLo c - inject_Z (Z.of_N s) * (olc_latitudeHi c - olc_latitudeLo c))
             (olc_longitudeLo c - inject_Z (Z.of_N w) * (olc_longitudeHi c - olc_longitudeLo c))
             (olc_latitudeHi c + inject_Z (Z.of_N n) * (olc_latitudeHi c - olc_latitudeLo c))
             (olc_longitudeHi c + inject_Z (Z.of_N e) * (olc_longitudeHi c - olc_longitudeLo c))
             (olc_codeLength c).
Proof.
  intros H. apply decode_Return in H.
  destruct H as (m & c & south & north & west & east & Hm & Hc & Hca & Hh & Hw
                 & Hs & Hn & Hwe & He & -> & _ & _).
  unfold isValid_ in Hm.
  assert (Hg : spec_gridcode (list_ascii_of_string g) = true).
  { destruct (re_match RE_PATTERN_ (ubid_text g n e s w)) as [m'|] eqn:Hm';
      [|discriminate]. exact (re_match_ubid_text_inv _ _ _ _ _ Hm'). }
  rewrite (re_match_ubid_text g n e s w Hg) in Hm.
  destruct (group_groups_of (list_ascii_of_string g)
              (list_ascii_of_string (dec n)) (list_ascii_of_string (dec e))
              (list_ascii_of_string (dec s)) (list_ascii_of_string (dec w)))
    as (Gg & Gn & Ge & Gs & Gw).
  rewrite !string_of_list_ascii_of_string in Gg, Gn, Ge, Gs, Gw.
  rewrite Gg in Hm.
  destruct (olc_isValid g) eqn:Hv; [|discriminate]. cbn [negb] in Hm.
  injection Hm as <-.
  rewrite Gg in Hc. rewrite Gs, py_int_dec in Hs. rewrite Gn, py_int_dec in Hn.
  rewrite Gw, py_int_dec in Hwe. rewrite Ge, py_int_dec in He.
  injection Hs as <-. injection Hn as <-. injection Hwe as <-. injection He as <-.
  exists c. auto 10.
Qed.

(** X7: [decode] is monotone in the extents: of two identifiers with the same
    grid code that both decode, the one with the larger extents has the
    larger box, around the same center cell. *)
Theorem decode_monotone (E : GridEngine) (g : string) (n e s w n' e' s' w' : N)
    (a a' : CodeArea) :
  decode (Some (ubid_text g n e s w)) = Return a ->
  decode (Some (ubid_text g n' e' s' w')) = Return a' ->
  (n <= n')%N -> (e <= e')%N -> (s <= s')%N -> (w <= w')%N ->
  box_within a a' /\ centroid a = centroid a'.
Proof.
  intros Ha Ha' Ln Le Ls Lw.
  destruct (@decode_ubid_text E g n e s w a Ha) as (c & _ & _ & Hc & _ & Hh & Hw & ->).
  destruct (@decode_ubid_text E g n' e' s' w' a' Ha') as (c' & _ & _ & Hc' & _ & _ & _ & ->).
  rewrite Hc in Hc'. injection Hc' as <-.
  split; [|reflexivity].
  unfold box_within. cbn [latitudeLo latitudeHi longitudeLo longitudeHi].
  assert (Qn : inject_Z (Z.of_N n) <= inject_Z (Z.of_N n')) by (rewrite <- Zle_Qle; lia).
  assert (Qe : inject_Z (Z.of_N e) <= inject_Z (Z.of_N e')) by (rewrite <- Zle_Qle; lia).
  assert (Qs : inject_Z (Z.of_N s) <= inject_Z (Z.of_N s')) by (rewrite <- Zle_Qle; lia).
  assert (Qw : inject_Z (Z.of_N w) <= inject_Z (Z.of_N w')) by (rewrite <- Zle_Qle; lia).
  set (h := olc_latitudeHi c - olc_latitudeLo c) in *.
  set (wd := olc_longitudeHi c - olc_longitudeLo c) in *.
  assert (M1 := Qmult_le_compat_r _ _ h Qs Hh).
  assert (M2 := Qmult_le_compat_r _ _ h Qn Hh).
  assert (M3 := Qmult_le_compat_r _ _ wd Qw Hw).
  assert (M4 := Qmult_le_compat_r _ _ wd Qe Hw).
  repeat split; lra.
Qed.

Lemma decode_monotone_witness :
  exists a a',
    decode (E := sample_engine) (Some sample_ubid) = Return a
    /\ decode (E := sample_engine) (Some wide_ubid) = Return a'
    /\ box_within a a' /\ centroid a = centroid a'.
Proof.
  assert (Hd : exists a, decode (E := sample_engine)
                           (Some (ubid_text sample_code 51 58 42 50)) = Return a)
    by (eexists; vm_compute; reflexivity).
  assert (Hd' : exists a, decode (E := sample_engine)
                            (Some (ubid_text sample_code 2000000 9000000 5000000 1000000))
                          = Return a)
    by (eexists; vm_compute; reflexivity).
  destruct Hd as [a Hd]. destruct Hd' as [a' Hd'].
  exists a, a'. split; [exact Hd|]. split; [exact Hd'|].
  apply (@decode_monotone sample_engine sample_code 51 58 42 50
           2000000 9000000 5000000 1000000 a a');
    [exact Hd | exact Hd' | | | |]; vm_compute; discriminate.
Defined.

(** X8: [resize] after [decode] never turns a box inside out: the resized box
    lies within the decoded one and still holds the center point of the
    center cell (with all extents zero it is that point alone). *)
Theorem decode_resize (E : GridEngine) (code : option string) (a : CodeArea) :
  decode code = Return a ->
  box_within (resize a) a
  /\ area_contains (resize a)
       ((olc_latitudeLo (centroid a) + olc_latitudeHi (centroid a)) / 2)
       ((olc_longitudeLo (centroid a) + olc_longitudeHi (centroid a)) / 2).
Proof.
  intros H. apply decode_Return in H.
  destruct H as (m & c & south & north & west & east & _ & _ & _ & Hh & Hw
                 & Hs & Hn & Hwe & He & -> & _ & _).
  apply py_int_nonneg in Hs, Hn, Hwe, He.
  unfold box_within, area_contains, resize.
  cbn [centroid latitudeLo latitudeHi longitudeLo longitudeHi].
  set (h := olc_latitudeHi c - olc_latitudeLo c) in *.
  set (wd := olc_longitudeHi c - olc_longitudeLo c) in *.
  assert (Qs : 0 <= inject_Z south * h).
  { apply Qmult_le_0_compat; [|exact Hh]. change 0 with (inject_Z 0). rewrite <- Zle_Qle. lia. }
  assert (Qn : 0 <= inject_Z north * h).
  { apply Qmult_le_0_compat; [|exact Hh]. change 0 with (inject_Z 0). rewrite <- Zle_Qle. lia. }
  assert (Qw : 0 <= inject_Z west * wd).
  { apply Qmult_le_0_compat; [|exact Hw]. change 0 with (inject_Z 0). rewrite <- Zle_Qle. lia. }
  assert (Qe : 0 <= inject_Z east * wd).
  { apply Qmult_le_0_compat; [|exact Hw]. change 0 with (inject_Z 0). rewrite <- Zle_Qle. lia. }
  assert (Eh : h / 2 == h * (1 # 2)) by field.
  assert (Ew : wd / 2 == wd * (1 # 2)) by field.
  assert (Mh : (olc_latitudeLo c + olc_latitudeHi c) / 2 == olc_latitudeLo c + h * (1 # 2))
    by (unfold h; field).
  assert (Mw : (olc_longitudeLo c + olc_longitudeHi c) / 2 == olc_longitudeLo c + wd * (1 # 2))
    by (unfold wd; field).
  rewrite Eh, Ew, Mh, Mw.
  assert (Hh' : olc_latitudeHi c == olc_latitudeLo c + h) by (unfold h; ring).
  assert (Hw' : olc_longitudeHi c == olc_longitudeLo c + wd) by (unfold wd; ring).
  rewrite Hh', Hw'.
  repeat split; lra.
Qed.

Lemma decode_resize_witness :
  exists a,
    decode (E := sample_engine) (Some sample_ubid) = Return a
    /\ box_within (resize a) a
    /\ latitudeLo (resize a) <= latitudeHi (resize a).
Proof.
  assert (Hd : exists a, decode (E := sample_engine) (Some sample_ubid) = Return a)
    by (eexists; vm_compute; reflexivity).
  destruct Hd as [a Hd].
  destruct (@decode_resize sample_engine (Some sample_ubid) a Hd) as [Hin Hc].
  exists a. split; [exact Hd|]. split; [exact Hin|].
  destruct Hc as (H1 & H2 & _). exact (Qle_trans _ _ _ H1 H2).
Defined.

(** ** The pattern, further *)

(** A match depends on the subject only up to one final newline. *)
Lemma re_match_chomp (s s' : string) :
  chomp_list (list_ascii_of_string s) = chomp_list (list_ascii_of_string s') ->
  re_match RE_PATTERN_ s = re_match RE_PATTERN_ s'.
Proof.
  intros Hc.
  destruct (re_match RE_PATTERN_ s) as [m|] eqn:Hm.
  - symmetry. apply re_match_iff. rewrite <- Hc. apply re_match_iff. exact Hm.
  - destruct (re_match RE_PATTERN_ s') as [m'|] eqn:Hm'; [|reflexivity].
    apply re_match_iff in Hm'. rewrite <- Hc in Hm'. apply re_match_iff in Hm'.
    congruence.
Qed.

Lemma chomp_fixed (s : string) :
  chomp s = s -> chomp_list (list_ascii_of_string s) = list_ascii_of_string s.
Proof.
  unfold chomp. intros H. apply (f_equal list_ascii_of_string) in H.
  rewrite list_ascii_of_string_of_list_ascii in H. exact H.
Qed.

(** X5: A newline after an identifier goes unnoticed by the whole codec: for
    a string [s] that does not end in a newline, [isValid_], [isValid] and
    [decode] give on [s] followed by a newline what they give on [s], be it
    a result or an exception. *)
Theorem decode_trailing_newline (E : GridEngine) (s : string) :
  chomp s = s ->
  isValid_ (Some (s ++ newline)%string) = isValid_ (Some s)
  /\ isValid (Some (s ++ newline)%string) = isValid (Some s)
  /\ decode (Some (s ++ newline)%string) = decode (Some s).
Proof.
  intros Hs. apply chomp_fixed in Hs.
  assert (Hm : re_match RE_PATTERN_ (s ++ newline)%string = re_match RE_PATTERN_ s).
  { apply re_match_chomp. rewrite list_ascii_of_string_app.
    change (list_ascii_of_string newline) with ["010"%char].
    rewrite chomp_list_snoc. symmetry. exact Hs. }
  assert (Hv : isValid_ (Some (s ++ newline)%string) = isValid_ (Some s)).
  { unfold isValid_. rewrite Hm. reflexivity. }
  split; [exact Hv|]. split.
  - unfold isValid. rewrite Hv. reflexivity.
  - unfold decode. rewrite Hv. reflexivity.
Qed.

Lemma decode_trailing_newline_witness :
  decode (E := sample_engine) (Some sample_ubid_nl)
  = decode (E := sample_engine) (Some sample_ubid)
  /\ exists a, decode (E := sample_engine) (Some sample_ubid) = Return a.
Proof.
  split.
  - apply (@decode_trailing_newline sample_engine sample_ubid). reflexivity.
  - eexists. vm_compute. reflexivity.
Defined.

(** X3: In every accepted identifier the ninth character is the [+] of the
    grid code, and the eight before it are code letters or padding zeros. *)
Theorem isValid_plus_position (E : GridEngine) (s : string) :
  isValid (Some s) = true ->
  nth_error (list_ascii_of_string s) 8 = Some OLC_SEPARATOR_
  /\ forallb (fun c => is_code_letter c || is_padding c)
       (firstn 8 (list_ascii_of_string s)) = true.
Proof.
  unfold isValid, isValid_.
  destruct (re_match RE_PATTERN_ s) as [m|] eqn:Hm; [|discriminate]. intros _.
  apply re_match_sound in Hm.
  destruct Hm as (g & n & e & so & w & tl & -> & _ & Hg & _).
  apply lang_gridcode_iff, spec_gridcode_elim in Hg.
  destruct Hg as (c1 & c2 & a & z & t & -> & H1 & H2 & Ha & Hz & Hlen & _).
  set (rest := "-"%char :: n ++ "-"%char :: e ++ "-"%char :: so ++ "-"%char :: w ++ tl).
  assert (Hl : List.length (c1 :: c2 :: a ++ z) = 8%nat).
  { cbn [List.length]. rewrite List.length_app. lia. }
  assert (Es : (c1 :: c2 :: a ++ z ++ "+"%char :: t) ++ rest
               = (c1 :: c2 :: a ++ z) ++ "+"%char :: t ++ rest).
  { cbn [app]. rewrite <- !List.app_assoc. reflexivity. }
  rewrite Es. split.
  - rewrite nth_error_app2 by lia. rewrite Hl. reflexivity.
  - rewrite firstn_app, Hl, Nat.sub_diag.
    change (firstn 0 ("+"%char :: t ++ rest)) with (@nil ascii).
    rewrite List.app_nil_r, firstn_all2 by (rewrite Hl; lia).
    assert (C1 : is_code_letter c1 = true) by (revert H1; ascii_cases c1).
    assert (C2 : is_code_letter c2 = true) by (revert H2; ascii_cases c2).
    cbn [forallb]. rewrite C1, C2. cbn [orb andb].
    rewrite forallb_app. apply andb_true_iff. split.
    + apply forallb_forall. intros x Hx.
      rewrite forallb_forall in Ha. rewrite (Ha x Hx). reflexivity.
    + apply forallb_forall. intros x Hx.
      rewrite forallb_forall in Hz. rewrite (Hz x Hx). apply orb_true_r.
Qed.

Lemma isValid_plus_position_witness :
  nth_error (list_ascii_of_string sample_ubid) 8 = Some OLC_SEPARATOR_
  /\ forallb (fun c => is_code_letter c || is_padding c)
       (firstn 8 (list_ascii_of_string sample_ubid)) = true.
Proof.
  apply (@isValid_plus_position sample_engine sample_ubid). vm_compute. reflexivity.
Defined.

(** *** Letter case *)

Lemma upper_separator (x : ascii) : Ascii.eqb (upper x) SEPARATOR_ = Ascii.eqb x SEPARATOR_.
Proof. ascii_cases x. Qed.

Lemma upper_newline (x : ascii) : Ascii.eqb (upper x) "010" = Ascii.eqb x "010".
Proof. ascii_cases x. Qed.

Lemma upper_zero (x : ascii) : Ascii.eqb (upper x) "0" = Ascii.eqb x "0".
Proof. ascii_cases x. Qed.

Lemma upper_plus (x : ascii) : Ascii.eqb (upper x) OLC_SEPARATOR_ = Ascii.eqb x OLC_SEPARATOR_.
Proof. ascii_cases x. Qed.

Lemma upper_digit (x : ascii) : is_digit (upper x) = is_digit x.
Proof. ascii_cases x. Qed.

Lemma upper_padding (x : ascii) : is_padding (upper x) = is_padding x.
Proof. ascii_cases x. Qed.

Lemma upper_code_letter (x : ascii) : is_code_letter (upper x) = is_code_letter x.
Proof. ascii_cases x. Qed.

Lemma upper_first (x : ascii) :
  in_class (bracket (substring 0 9 CODE_ALPHABET_)) (upper x)
  = in_class (bracket (substring 0 9 CODE_ALPHABET_)) x.
Proof. ascii_cases x. Qed.

Lemma upper_second (x : ascii) :
  in_class (bracket (substring 0 18 CODE_ALPHABET_)) (upper x)
  = in_class (bracket (substring 0 18 CODE_ALPHABET_)) x.
Proof. ascii_cases x. Qed.

Lemma split_on_map (f : ascii -> ascii) (sep : ascii) (w : list ascii) :
  (forall x, Ascii.eqb (f x) sep = Ascii.eqb x sep) ->
  split_on sep (map f w) = map (map f) (split_on sep w).
Proof.
  intros Hf. induction w as [|c w IH]; [reflexivity|].
  cbn [map split_on]. rewrite Hf, IH.
  destruct (Ascii.eqb c sep); [reflexivity|].
  destruct (split_on sep w); reflexivity.
Qed.

Lemma chomp_list_map (f : ascii -> ascii) (w : list ascii) :
  (forall x, Ascii.eqb (f x) "010" = Ascii.eqb x "010") ->
  chomp_list (map f w) = map f (chomp_list w).
Proof.
  intros Hf. induction w as [|c w IH]; [reflexivity|].
  destruct w as [|d w].
  - cbn. rewrite Hf. destruct (Ascii.eqb c "010"); reflexivity.
  - change (chomp_list (map f (c :: d :: w))) with (f c :: chomp_list (map f (d :: w))).
    rewrite IH. reflexivity.
Qed.

Lemma span_map (f : ascii -> ascii) (p : ascii -> bool) (w : list ascii) :
  (forall x, p (f x) = p x) ->
  span p (map f w) = (map f (fst (span p w)), map f (snd (span p w))).
Proof.
  intros Hf. induction w as [|c w IH]; [reflexivity|].
  cbn [map span]. rewrite Hf, IH. destruct (p c); reflexivity.
Qed.

Lemma forallb_map_same (f : ascii -> ascii) (p : ascii -> bool) (w : list ascii) :
  (forall x, p (f x) = p x) -> forallb p (map f w) = forallb p w.
Proof.
  intros Hf. induction w as [|c w IH]; [reflexivity|].
  cbn [map forallb]. rewrite Hf, IH. reflexivity.
Qed.

Lemma spec_extent_upper (w : list ascii) : spec_extent (map upper w) = spec_extent w.
Proof.
  destruct w as [|c ds]; [reflexivity|]. cbn [map spec_extent].
  rewrite upper_zero, upper_digit, (forallb_map_same upper is_digit ds upper_digit).
  destruct ds; reflexivity.
Qed.

Lemma spec_padded_tail_upper (t : list ascii) :
  spec_padded_tail (map upper t) = spec_padded_tail t.
Proof.
  unfold spec_padded_tail.
  rewrite (forallb_map_same upper is_padding t upper_padding), List.length_map.
  destruct t; reflexivity.
Qed.

Lemma spec_full_tail_upper (t : list ascii) :
  spec_full_tail (map upper t) = spec_full_tail t.
Proof.
  unfold spec_full_tail.
  rewrite (span_map upper is_code_letter t upper_code_letter). cbn [fst snd].
  rewrite (forallb_map_same upper is_padding _ upper_padding), !List.length_map.
  destruct t; [reflexivity|]. cbn [map].
  destruct (fst (span is_code_letter (a :: t))); reflexivity.
Qed.

Lemma spec_gridcode_upper (g : list ascii) :
  spec_gridcode (map upper g) = spec_gridcode g.
Proof.
  destruct g as [|c1 [|c2 w]]; try reflexivity.
  cbn [map]. unfold spec_gridcode. rewrite upper_first, upper_second.
  rewrite (span_map upper is_code_letter w upper_code_letter). cbn [fst snd].
  rewrite (span_map upper is_padding _ upper_padding). cbn [fst snd].
  rewrite !List.length_map.
  destruct (snd (span is_padding (snd (span is_code_letter w)))) as [|p t];
    [reflexivity|].
  cbn [map]. rewrite upper_plus, spec_full_tail_upper, spec_padded_tail_upper.
  destruct (fst (span is_padding (snd (span is_code_letter w)))); reflexivity.
Qed.

Lemma list_ascii_of_to_upper (s : string) :
  list_ascii_of_string (to_upper s) = map upper (list_ascii_of_string s).
Proof. unfold to_upper. apply list_ascii_of_string_of_list_ascii. Qed.

Lemma split_to_upper (s : string) :
  split_on SEPARATOR_ (chomp_list (list_ascii_of_string (to_upper s)))
  = map (map upper) (split_on SEPARATOR_ (chomp_list (list_ascii_of_string s))).
Proof.
  rewrite list_ascii_of_to_upper, (chomp_list_map upper _ upper_newline).
  apply split_on_map, upper_separator.
Qed.

(** X4: The pattern is blind to the case of ASCII letters, and a match keeps
    the text as written: on [s] in capitals [RE_PATTERN_.match] fails exactly
    when it fails on [s], and otherwise its groups are those of the match on
    [s], in capitals. *)
Theorem re_match_to_upper (s : string) :
  re_match RE_PATTERN_ (to_upper s)
  = option_map upper_captures (re_match RE_PATTERN_ s).
Proof.
  destruct (re_match RE_PATTERN_ s) as [m|] eqn:Hm; cbn [option_map].
  - apply re_match_iff in Hm.
    destruct Hm as (g & n & e & so & w & Hsp & Hg & Hn & He & Hso & Hw & ->).
    apply re_match_iff.
    exists (map upper g), (map upper n), (map upper e), (map upper so), (map upper w).
    rewrite split_to_upper, Hsp, !spec_extent_upper.
    split; [reflexivity|]. split.
    { apply lang_gridcode_iff. rewrite spec_gridcode_upper.
      apply lang_gridcode_iff, Hg. }
    auto 10.
  - destruct (re_match RE_PATTERN_ (to_upper s)) as [m'|] eqn:Hm'; [|reflexivity].
    exfalso. apply re_match_iff in Hm'.
    destruct Hm' as (g' & n' & e' & so' & w' & Hsp & Hg & Hn & He & Hso & Hw & _).
    rewrite split_to_upper in Hsp.
    destruct (split_on SEPARATOR_ (chomp_list (list_ascii_of_string s)))
      as [|g [|n [|e [|so [|w [|x l]]]]]] eqn:Hs; try discriminate.
    cbn [map] in Hsp. injection Hsp as <- <- <- <- <-.
    rewrite spec_extent_upper in Hn, He, Hso, Hw.
    apply lang_gridcode_iff in Hg. rewrite spec_gridcode_upper in Hg.
    apply lang_gridcode_iff in Hg.
    assert (H : re_match RE_PATTERN_ s = Some (groups_of g n e so w)).
    { apply re_match_iff. exists g, n, e, so, w. auto 10. }
    congruence.
Qed.

(** ** The encoder *)

Lemma fdiv_Return (a b q : Q) : fdiv a b = Return q -> ~ b == 0 /\ q = a / b.
Proof.
  destruct (fdiv_cases a b) as [[_ ->]|[Hb ->]]; [discriminate|].
  intros H. injection H as <-. auto.
Qed.

Lemma quotient_nonneg (x h : Q) : 0 < h -> 0 <= x / h -> 0 <= x.
Proof.
  intros Hh Hq.
  assert (E : x == x / h * h) by (field; lra).
  rewrite E. apply Qmult_le_0_compat; lra.
Qed.

(** What a successful [encode] has gone through: the three cells pass
    the cell check, the center cell has positive height and width, the four
    counts are not negative, and the result is written from them. *)
Lemma encode_inversion (E : GridEngine)
    (latLo lonLo latHi lonHi latitudeCenter longitudeCenter : Q) (codeLength : Z)
    (code : string) :
  encode latLo lonLo latHi lonHi latitudeCenter longitudeCenter codeLength
  = Return code ->
  exists olcCenter cNE cSW cC,
    encode_cells latLo lonLo latHi lonHi latitudeCenter longitudeCenter codeLength
      olcCenter cNE cSW cC
    /\ 0 < olc_latitudeHi cC - olc_latitudeLo cC
    /\ 0 < olc_longitudeHi cC - olc_longitudeLo cC
    /\ 0 <= (olc_latitudeHi cNE - olc_latitudeHi cC)
            / (olc_latitudeHi cC - olc_latitudeLo cC)
    /\ 0 <= (olc_longitudeHi cNE - olc_longitudeHi cC)
            / (olc_longitudeHi cC - olc_longitudeLo cC)
    /\ 0 <= (olc_latitudeLo cC - olc_latitudeLo cSW)
            / (olc_latitudeHi cC - olc_latitudeLo cC)
    /\ 0 <= (olc_longitudeLo cC - olc_longitudeLo cSW)
            / (olc_longitudeHi cC - olc_longitudeLo cC)
    /\ code = FORMAT_STRING_ olcCenter
                ((olc_latitudeHi cNE - olc_latitudeHi cC)
                 / (olc_latitudeHi cC - olc_latitudeLo cC))
                ((olc_longitudeHi cNE - olc_longitudeHi cC)
                 / (olc_longitudeHi cC - olc_longitudeLo cC))
                ((olc_latitudeLo cC - olc_latitudeLo cSW)
                 / (olc_latitudeHi cC - olc_latitudeLo cC))
                ((olc_longitudeLo cC - olc_longitudeLo cSW)
                 / (olc_longitudeHi cC - olc_longitudeLo cC)).
Proof.
  unfold encode. intros H. cbv zeta in H.
  check_inv H as H1. check_inv H as H2. check_inv H as H3.
  bind_inv H as olcNE HoNE. bind_inv H as cNE HcNE. check_inv H as H4.
  bind_inv H as olcSW HoSW. bind_inv H as cSW HcSW. check_inv H as H5.
  bind_inv H as olcC HoC. bind_inv H as cC HcC. check_inv H as H6.
  check_inv H as Hh. check_inv H as Hw.
  bind_inv H as north Hn. check_inv H as Hn0.
  bind_inv H as south Hs. check_inv H as Hs0.
  bind_inv H as east He. check_inv H as He0.
  bind_inv H as west Hwe. check_inv H as Hw0.
  injection H as <-.
  apply Qgeb_true in Hh, Hw, Hn0, Hs0, He0, Hw0.
  apply fdiv_Return in Hn, Hs, He, Hwe.
  destruct Hn as [Zh ->], Hs as [_ ->], He as [Zw ->], Hwe as [_ ->].
  exists olcC, cNE, cSW, cC.
  split; [exists olcNE, olcSW; auto 10|].
  split; [lra|]. split; [lra|]. auto 10.
Qed.

(** X9: Every identifier returned by [encode] is one [isValid] accepts, as
    soon as the grid code of the center is of the pattern's grammar and good
    for the grid engine: the four counts are written as plain numerals, with
    no sign, fraction or exponent. *)
Theorem encode_isValid (E : GridEngine)
    (latLo lonLo latHi lonHi latitudeCenter longitudeCenter : Q) (codeLength : Z)
    (code olcCenter : string) :
  encode latLo lonLo latHi lonHi latitudeCenter longitudeCenter codeLength
  = Return code ->
  olc_encode latitudeCenter longitudeCenter codeLength = Return olcCenter ->
  spec_gridcode (list_ascii_of_string olcCenter) = true ->
  olc_isValid olcCenter = true ->
  isValid (Some code) = true
  /\ exists n e s w : N, code = ubid_text olcCenter n e s w.
Proof.
  intros H Hc Hg Hv. apply encode_inversion in H.
  destruct H as (olc & cNE & cSW & cC & (gNE & gSW & _ & _ & _ & _ & Hc' & _)
                 & _ & _ & Hn & He & Hs & Hw & ->).
  rewrite Hc in Hc'. injection Hc' as <-.
  rewrite (FORMAT_STRING__ubid_text olcCenter Hn He Hs Hw).
  split; [|eauto].
  unfold isValid. rewrite (@isValid__ubid_text E olcCenter _ _ _ _ Hg Hv). reflexivity.
Qed.

Lemma encode_isValid_witness :
  encode (E := sample_engine) (3777846 # 100000) (-1223896 # 10000)
    (3777846 # 100000) (-1223896 # 10000) (3777846 # 100000) (-1223896 # 10000) 11
  = Return "849VQJH6+95J-0-0-0-0"
  /\ isValid (E := sample_engine) (Some "849VQJH6+95J-0-0-0-0") = true.
Proof.
  assert (H : encode (E := sample_engine) (3777846 # 100000) (-1223896 # 10000)
                (3777846 # 100000) (-1223896 # 10000) (3777846 # 100000) (-1223896 # 10000) 11
              = Return "849VQJH6+95J-0-0-0-0") by (vm_compute; reflexivity).
  split; [exact H|].
  apply (@encode_isValid sample_engine _ _ _ _ _ _ _ _ sample_code H);
    vm_compute; reflexivity.
Defined.

(** X10: [encode] returns only when the center cell has positive height and
    width and lies between the low edges of the cell of the south-west
    corner and the high edges of the cell of the north-east corner. *)
Theorem encode_center_between (E : GridEngine)
    (latLo lonLo latHi lonHi latitudeCenter longitudeCenter : Q) (codeLength : Z)
    (code : string) :
  encode latLo lonLo latHi lonHi latitudeCenter longitudeCenter codeLength
  = Return code ->
  exists olcCenter cNE cSW cC,
    encode_cells latLo lonLo latHi lonHi latitudeCenter longitudeCenter codeLength
      olcCenter cNE cSW cC
    /\ olc_latitudeLo cC < olc_latitudeHi cC
    /\ olc_longitudeLo cC < olc_longitudeHi cC
    /\ olc_latitudeLo cSW <= olc_latitudeLo cC
    /\ olc_latitudeHi cC <= olc_latitudeHi cNE
    /\ olc_longitudeLo cSW <= olc_longitudeLo cC
    /\ olc_longitudeHi cC <= olc_longitudeHi cNE.
Proof.
  intros H. apply encode_inversion in H.
  destruct H as (olc & cNE & cSW & cC & Hcells & Hh & Hw & Hn & He & Hs & Hwe & _).
  exists olc, cNE, cSW, cC. split; [exact Hcells|].
  apply (quotient_nonneg Hh) in Hn, Hs. apply (quotient_nonneg Hw) in He, Hwe.
  repeat split; lra.
Qed.

Lemma encode_center_between_witness :
  exists olcCenter cNE cSW cC,
    encode_cells (E := sample_engine) (3777846 # 100000) (-1223896 # 10000)
      (3777846 # 100000) (-1223896 # 10000) (3777846 # 100000) (-1223896 # 10000) 11
      olcCenter cNE cSW cC
    /\ olc_latitudeLo cC < olc_latitudeHi cC
    /\ olc_latitudeHi cC <= olc_latitudeHi cNE.
Proof.
  destruct (@encode_center_between sample_engine (3777846 # 100000) (-1223896 # 10000)
              (3777846 # 100000) (-1223896 # 10000) (3777846 # 100000) (-1223896 # 10000) 11
              "849VQJH6+95J-0-0-0-0")
    as (olc & cNE & cSW & cC & Hc & H1 & _ & _ & H2 & _);
    [vm_compute; reflexivity|].
  exists olc, cNE, cSW, cC. auto.
Defined.

(** *** Rounding *)







(** *** From a decoded area back to its identifier *)






(** ** Identifiers in normal form *)

Lemma is_digit_cases (c : ascii) :
  is_digit c = true ->
  c = "0"%char \/ c = "1"%char \/ c = "2"%char \/ c = "3"%char \/ c = "4"%char
  \/ c = "5"%char \/ c = "6"%char \/ c = "7"%char \/ c = "8"%char \/ c = "9"%char.
Proof.
  destruct c as [[] [] [] [] [] [] [] []]; vm_compute; intros H;
    try discriminate; tauto.
Qed.

(** A run of digits is the text of a decimal numeral. *)
Lemma digits_uint (w : list ascii) :
  forallb is_digit w = true ->
  exists d, list_ascii_of_string (NilEmpty.string_of_uint d) = w.
Proof.
  induction w as [|c w IH]; intros H.
  - exists Decimal.Nil. reflexivity.
  - cbn [forallb] in H. apply andb_true_iff in H. destruct H as [Hc Hw].
    destruct (IH Hw) as [d Hd].
    destruct (is_digit_cases _ Hc) as [->|[->|[->|[->|[->|[->|[->|[->|[->| ->]]]]]]]]].
    + exists (Decimal.D0 d). cbn. rewrite Hd. reflexivity.
    + exists (Decimal.D1 d). cbn. rewrite Hd. reflexivity.
    + exists (Decimal.D2 d). cbn. rewrite Hd. reflexivity.
    + exists (Decimal.D3 d). cbn. rewrite Hd. reflexivity.
    + exists (Decimal.D4 d). cbn. rewrite Hd. reflexivity.
    + exists (Decimal.D5 d). cbn. rewrite Hd. reflexivity.
    + exists (Decimal.D6 d). cbn. rewrite Hd. reflexivity.
    + exists (Decimal.D7 d). cbn. rewrite Hd. reflexivity.
    + exists (Decimal.D8 d). cbn. rewrite Hd. reflexivity.
    + exists (Decimal.D9 d). cbn. rewrite Hd. reflexivity.
Qed.

(** The numeral of an extent group has no zero to drop. *)
Lemma spec_extent_unorm (d : Decimal.uint) :
  spec_extent (list_ascii_of_string (NilEmpty.string_of_uint d)) = true ->
  Decimal.unorm d = d.
Proof.
  destruct d as [|d|d|d|d|d|d|d|d|d|d]; cbn; try discriminate; try reflexivity.
  destruct d; cbn; try discriminate. reflexivity.
Qed.

(** An extent group is the numeral of the number [int] reads from it. *)
Lemma dec_py_int (w : list ascii) :
  spec_extent w = true ->
  exists k : N,
    py_int (string_of_list_ascii w) = Return (Z.of_N k)
    /\ list_ascii_of_string (dec k) = w.
Proof.
  intros Hw.
  destruct (spec_extent_digits _ Hw) as [Hne Hd].
  destruct (digits_uint _ Hd) as [d Ed].
  exists (N.of_uint d). split.
  - unfold py_int. rewrite list_ascii_of_string_of_list_ascii.
    pose proof (int_acc_uint_zero d) as Hi. rewrite Ed in Hi.
    destruct w as [|c w]; [congruence|]. rewrite Hi. reflexivity.
  - unfold dec. rewrite DecimalN.Unsigned.to_of.
    rewrite <- Ed in Hw. rewrite (spec_extent_unorm _ Hw). exact Ed.
Qed.

Lemma extent_of_groups_of (g n e so w : list ascii) (k : nat) (x : list ascii) :
  lookup_group (groups_of g n e so w) k = Some x ->
  spec_extent x = true ->
  list_ascii_of_string (dec (Z.to_N (extent_of (groups_of g n e so w) k))) = x.
Proof.
  intros Hk Hx. destruct (dec_py_int _ Hx) as (z & Hz & Ez).
  unfold extent_of, group. rewrite Hk, Hz, N2Z.id. exact Ez.
Qed.

(** X2: Every accepted identifier is in normal form: apart from one final
    newline, it is the text written from its grid code (group 1 of the
    match) and the four integers read from its extent groups, the grid code
    is one the grid engine accepts, and none of the integers is negative. *)
Theorem isValid__normal_form (E : GridEngine) (s : string) (m : captures) :
  isValid_ (Some s) = Some m ->
  chomp s
  = ubid_text (group m RE_GROUP_OPENLOCATIONCODE_)
      (Z.to_N (extent_of m RE_GROUP_NORTH_)) (Z.to_N (extent_of m RE_GROUP_EAST_))
      (Z.to_N (extent_of m RE_GROUP_SOUTH_)) (Z.to_N (extent_of m RE_GROUP_WEST_))
  /\ olc_isValid (group m RE_GROUP_OPENLOCATIONCODE_) = true
  /\ (0 <= extent_of m RE_GROUP_NORTH_)%Z /\ (0 <= extent_of m RE_GROUP_EAST_)%Z
  /\ (0 <= extent_of m RE_GROUP_SOUTH_)%Z /\ (0 <= extent_of m RE_GROUP_WEST_)%Z.
Proof.
  intros Hv.
  destruct (isValid__extents _ _ Hv) as (Pn & Pe & Ps & Pw).
  apply py_int_nonneg in Pn, Pe, Ps, Pw.
  unfold isValid_ in Hv.
  destruct (re_match RE_PATTERN_ s) as [m'|] eqn:Hm; [|discriminate].
  destruct (olc_isValid (group m' RE_GROUP_OPENLOCATIONCODE_)) eqn:Ho; [|discriminate].
  cbn [negb] in Hv. injection Hv as <-.
  split; [|auto 10].
  apply re_match_iff in Hm.
  destruct Hm as (g & n & e & so & w & Hsp & _ & Hn & He & Hso & Hw & ->).
  pose proof (join_on_split_on SEPARATOR_ (chomp_list (list_ascii_of_string s))) as Hj.
  rewrite Hsp in Hj. cbn [join_on] in Hj.
  unfold chomp. rewrite <- Hj.
  rewrite <- (string_of_list_ascii_of_string (ubid_text _ _ _ _ _)). f_equal.
  rewrite ubid_text_chars, List.app_nil_r.
  rewrite (@extent_of_groups_of g n e so w RE_GROUP_NORTH_ n eq_refl Hn),
    (@extent_of_groups_of g n e so w RE_GROUP_EAST_ e eq_refl He),
    (@extent_of_groups_of g n e so w RE_GROUP_SOUTH_ so eq_refl Hso),
    (@extent_of_groups_of g n e so w RE_GROUP_WEST_ w eq_refl Hw).
  change (group (groups_of g n e so w) RE_GROUP_OPENLOCATIONCODE_)
    with (string_of_list_ascii g).
  rewrite list_ascii_of_string_of_list_ascii. reflexivity.
Qed.

Lemma isValid__normal_form_witness :
  exists m,
    isValid_ (E := sample_engine) (Some sample_ubid_nl) = Some m
    /\ chomp sample_ubid_nl
       = ubid_text (group m RE_GROUP_OPENLOCATIONCODE_)
           (Z.to_N (extent_of m RE_GROUP_NORTH_)) (Z.to_N (extent_of m RE_GROUP_EAST_))
           (Z.to_N (extent_of m RE_GROUP_SOUTH_)) (Z.to_N (extent_of m RE_GROUP_WEST_))
    /\ chomp sample_ubid_nl = sample_ubid.
Proof.
  assert (Hm : exists m, isValid_ (E := sample_engine) (Some sample_ubid_nl) = Some m)
    by (eexists; vm_compute; reflexivity).
  destruct Hm as [m Hm]. exists m. split; [exact Hm|]. split; [|reflexivity].
  exact (proj1 (@isValid__normal_form sample_engine sample_ubid_nl m Hm)).
Defined.

(** ** Nested boxes *)



(** * Tiles and quadkeys *)

Lemma land_shiftl_1 (x j : Z) :
  (0 <= j)%Z -> (Z.land x (Z.shiftl 1 j) =? 0)%Z = negb (Z.testbit x j).
Proof.
  intros Hj. rewrite Z.shiftl_1_l.
  destruct (Z.testbit x j) eqn:Hb; cbn [negb].
  - apply Z.eqb_neq. intros H.
    apply (f_equal (fun a => Z.testbit a j)) in H.
    rewrite Z.land_spec, Hb, Z.pow2_bits_true, Z.bits_0 in H by exact Hj.
    discriminate.
  - apply Z.eqb_eq. apply Z.bits_inj'. intros n Hn.
    rewrite Z.land_spec, Z.bits_0, Z.pow2_bits_eqb by exact Hj.
    destruct (Z.eqb_spec j n) as [<-|_]; [rewrite Hb|]; apply andb_false_r || reflexivity.
Qed.

(** The digit of one turn, from the bits. *)
Lemma str_int_quadkey_digit (x y : Z) (i' : nat) :
  str_int (quadkey_digit x y (Z.of_nat (S i')))
  = String (bit_digit (Z.testbit x (Z.of_nat i')) (Z.testbit y (Z.of_nat i'))) "".
Proof.
  unfold quadkey_digit. cbv zeta.
  replace (Z.of_nat (S i') - 1)%Z with (Z.of_nat i') by lia.
  rewrite !land_shiftl_1 by lia. rewrite !negb_involutive.
  destruct (Z.testbit x (Z.of_nat i')), (Z.testbit y (Z.of_nat i')); reflexivity.
Qed.

Lemma quadkey_loop_chars (x y : Z) (i : nat) :
  forall acc,
    list_ascii_of_string (quadkey_loop x y i acc)
    = list_ascii_of_string acc ++ bit_digits x y i.
Proof.
  induction i as [|i IH]; intros acc.
  - cbn. rewrite List.app_nil_r. reflexivity.
  - cbn [quadkey_loop bit_digits]. rewrite IH, str_int_quadkey_digit.
    rewrite list_ascii_of_string_app. cbn [list_ascii_of_string].
    rewrite <- List.app_assoc. reflexivity.
Qed.

Lemma tile_to_quadkey_chars (x y zoom : Z) :
  list_ascii_of_string (tile_to_quadkey x y zoom) = bit_digits x y (Z.to_nat zoom).
Proof. unfold tile_to_quadkey. rewrite quadkey_loop_chars. reflexivity. Qed.

Lemma string_length_chars (s : string) :
  String.length s = List.length (list_ascii_of_string s).
Proof. induction s as [|c s IH]; cbn; [reflexivity | rewrite IH; reflexivity]. Qed.

Lemma bit_digits_length (x y : Z) (i : nat) : List.length (bit_digits x y i) = i.
Proof. induction i as [|i IH]; cbn; [reflexivity | rewrite IH; reflexivity]. Qed.

Lemma bit_digit_inj (a b a' b' : bool) :
  bit_digit a b = bit_digit a' b' -> a = a' /\ b = b'.
Proof. destruct a, b, a', b'; cbn; intros H; try discriminate; auto. Qed.

Lemma bit_digits_eq_iff (x y x' y' : Z) (i : nat) :
  bit_digits x y i = bit_digits x' y' i
  <-> forall j, (0 <= j < Z.of_nat i)%Z ->
                Z.testbit x j = Z.testbit x' j /\ Z.testbit y j = Z.testbit y' j.
Proof.
  induction i as [|i IH].
  - split; [intros _ j Hj; lia | reflexivity].
  - cbn [bit_digits]. split.
    + intros H. injection H as Hd Hr. apply bit_digit_inj in Hd.
      intros j Hj. destruct (Z.eq_dec j (Z.of_nat i)) as [->|Hne]; [exact Hd|].
      apply (proj1 IH Hr). lia.
    + intros H. f_equal.
      * destruct (H (Z.of_nat i)) as [-> ->]; [lia | reflexivity].
      * apply IH. intros j Hj. apply H. lia.
Qed.

Lemma low_bits_mod (a b n : Z) :
  (0 <= n)%Z ->
  (forall j, (0 <= j < n)%Z -> Z.testbit a j = Z.testbit b j)
  <-> (a mod 2 ^ n = b mod 2 ^ n)%Z.
Proof.
  intros Hn. split.
  - intros H. apply Z.bits_inj'. intros j Hj.
    rewrite !Z.testbit_mod_pow2 by exact Hn.
    destruct (Z.ltb_spec j n) as [Hlt|_]; [|reflexivity].
    cbn [andb]. apply H. lia.
  - intros H j Hj.
    rewrite <- (Z.mod_pow2_bits_low a n j), <- (Z.mod_pow2_bits_low b n j) by lia.
    rewrite H. reflexivity.
Qed.

(** X19: A quadkey has one digit for every zoom level (none for a zoom that is
    not positive), each of them 0, 1, 2 or 3. *)
Theorem tile_to_quadkey_length (x y zoom : Z) :
  String.length (tile_to_quadkey x y zoom) = Z.to_nat zoom
  /\ Forall (fun c => In c ["0"; "1"; "2"; "3"]%char)
       (list_ascii_of_string (tile_to_quadkey x y zoom)).
Proof.
  rewrite string_length_chars, tile_to_quadkey_chars. split.
  - apply bit_digits_length.
  - induction (Z.to_nat zoom) as [|i IH]; cbn [bit_digits]; constructor; [|exact IH].
    destruct (Z.testbit x (Z.of_nat i)), (Z.testbit y (Z.of_nat i)); cbn; auto.
Qed.

(** X20: Two tiles have the same quadkey at a zoom level exactly when their
    coordinates agree on the bits below that level: the key tells apart the
    tiles from 0 to [2 ^ zoom - 1] in each direction, and takes a coordinate
    outside this range (a negative one too) for the one it is congruent
    to. *)
Theorem tile_to_quadkey_eq_iff (x y x' y' zoom : Z) :
  (0 <= zoom)%Z ->
  tile_to_quadkey x y zoom = tile_to_quadkey x' y' zoom
  <-> (x mod 2 ^ zoom = x' mod 2 ^ zoom /\ y mod 2 ^ zoom = y' mod 2 ^ zoom)%Z.
Proof.
  intros Hz.
  rewrite <- (low_bits_mod x x' Hz), <- (low_bits_mod y y' Hz).
  transitivity (bit_digits x y (Z.to_nat zoom) = bit_digits x' y' (Z.to_nat zoom)).
  - rewrite <- !tile_to_quadkey_chars. split; [intros ->; reflexivity|].
    intros H. apply (f_equal string_of_list_ascii) in H.
    rewrite !string_of_list_ascii_of_string in H. exact H.
  - rewrite bit_digits_eq_iff, Z2Nat.id by exact Hz.
    split; [intros H; split; intros j Hj; apply (H j Hj) | intros [H1 H2] j Hj; auto].
Qed.

Lemma tile_to_quadkey_eq_iff_witness :
  tile_to_quadkey 3 5 3 = tile_to_quadkey 11 (-3) 3
  /\ tile_to_quadkey 3 5 3 = "213".
Proof.
  split; [|reflexivity].
  apply (proj2 (@tile_to_quadkey_eq_iff 3 5 11 (-3) 3 ltac:(lia))).
  split; reflexivity.
Defined.

Lemma bit_digits_add (x y : Z) (k z : nat) :
  bit_digits x y (z + k)
  = bit_digits (Z.shiftr x (Z.of_nat k)) (Z.shiftr y (Z.of_nat k)) z
      ++ bit_digits x y k.
Proof.
  induction z as [|z IH]; [reflexivity|].
  cbn [Nat.add bit_digits app]. rewrite IH, !Z.shiftr_spec by lia.
  rewrite Nat2Z.inj_add. reflexivity.
Qed.

(** X21: The quadkey of a tile begins with the quadkey of each tile above it:
    at zoom [z + k] it is the quadkey at zoom [z] of the tile with both
    coordinates shifted right by [k] bits (halved [k] times, rounding down),
    followed by the [k] digits for the low bits. *)
Theorem tile_to_quadkey_ancestor (x y z k : Z) :
  (0 <= z)%Z -> (0 <= k)%Z ->
  tile_to_quadkey x y (z + k)
  = (tile_to_quadkey (Z.shiftr x k) (Z.shiftr y k) z ++ tile_to_quadkey x y k)%string.
Proof.
  intros Hz Hk.
  rewrite <- (string_of_list_ascii_of_string (tile_to_quadkey x y (z + k))).
  rewrite <- (string_of_list_ascii_of_string
                (tile_to_quadkey (Z.shiftr x k) (Z.shiftr y k) z ++ tile_to_quadkey x y k)).
  f_equal. rewrite list_ascii_of_string_app, !tile_to_quadkey_chars.
  rewrite Z2Nat.inj_add by assumption.
  rewrite bit_digits_add, Z2Nat.id by exact Hk. reflexivity.
Qed.

Lemma tile_to_quadkey_ancestor_witness :
  tile_to_quadkey 301 385 (7 + 3)
  = (tile_to_quadkey 37 48 7 ++ tile_to_quadkey 301 385 3)%string
  /\ tile_to_quadkey 301 385 (7 + 3) = "0320101103".
Proof.
  split; [|reflexivity].
  apply (@tile_to_quadkey_ancestor 301 385 7 3); lia.
Defined.

(** ** The quadkeys of a bounding box *)

Lemma In_py_range (lo hi k : Z) : In k (py_range lo hi) <-> (lo <= k < hi)%Z.
Proof.
  unfold py_range. rewrite in_map_iff. split.
  - intros (j & <- & Hj). apply in_seq in Hj. lia.
  - intros H. exists (Z.to_nat (k - lo)). split; [lia|]. apply in_seq. lia.
Qed.

Lemma py_range_length (lo hi : Z) : List.length (py_range lo hi) = Z.to_nat (hi - lo).
Proof. unfold py_range. rewrite List.length_map, List.length_seq. reflexivity. Qed.

Lemma fold_left_append {A B : Type} (f : A -> B) (l : list A) :
  forall acc, fold_left (fun acc a => acc ++ [f a]) l acc = acc ++ map f l.
Proof.
  induction l as [|a l IH]; intros acc; cbn [fold_left map].
  - rewrite List.app_nil_r. reflexivity.
  - rewrite IH, <- List.app_assoc. reflexivity.
Qed.

Lemma fold_left_nested {A B C : Type} (f : A -> B -> C) (xs : list A) (ys : list B) :
  forall acc,
    fold_left (fun acc x => fold_left (fun acc y => acc ++ [f x y]) ys acc) xs acc
    = acc ++ flat_map (fun x => map (f x) ys) xs.
Proof.
  induction xs as [|x xs IH]; intros acc; cbn [fold_left flat_map].
  - rewrite List.app_nil_r. reflexivity.
  - rewrite (fold_left_append (f x)), IH, <- List.app_assoc. reflexivity.
Qed.

Lemma flat_map_length_const {A B : Type} (f : A -> list B) (n : nat) (l : list A) :
  (forall a, List.length (f a) = n) ->
  List.length (flat_map f l) = (List.length l * n)%nat.
Proof.
  intros Hf. induction l as [|a l IH]; cbn [flat_map List.length]; [reflexivity|].
  rewrite List.length_app, Hf, IH. lia.
Qed.

(** The two loops as one comprehension. *)
Lemma get_quadkeys_for_bbox_flat_map (deg2num : Q -> Q -> Z -> Z * Z)
    (north south east west : Q) (zoom : Z) :
  get_quadkeys_for_bbox deg2num north south east west zoom
  = flat_map
      (fun x =>
         map (fun y => tile_to_quadkey x y zoom)
           (py_range (snd (deg2num north east zoom))
              (snd (deg2num south west zoom) + 1)))
      (py_range (fst (deg2num south west zoom))
         (fst (deg2num north east zoom) + 1)).
Proof.
  unfold get_quadkeys_for_bbox.
  destruct (deg2num south west zoom) as [min_x max_y].
  destruct (deg2num north east zoom) as [max_x min_y]. cbn [fst snd].
  apply (fold_left_nested (fun x y => tile_to_quadkey x y zoom)).
Qed.

(** X22: [get_quadkeys_for_bbox] returns the quadkeys of the tiles of a
    rectangle, and nothing else: with [(min_x, max_y)] the tile of the
    south-west corner and [(max_x, min_y)] that of the north-east corner, a
    key is in the list exactly when it is the key of a tile with
    [min_x <= x <= max_x] and [min_y <= y <= max_y]; the list has
    [(max_x - min_x + 1) * (max_y - min_y + 1)] entries, none when one of
    the two ranges is empty. *)
Theorem get_quadkeys_for_bbox_tiles (deg2num : Q -> Q -> Z -> Z * Z)
    (north south east west : Q) (zoom : Z) :
  (forall q,
     In q (get_quadkeys_for_bbox deg2num north south east west zoom)
     <-> exists x y,
           (fst (deg2num south west zoom) <= x <= fst (deg2num north east zoom))%Z
           /\ (snd (deg2num north east zoom) <= y <= snd (deg2num south west zoom))%Z
           /\ q = tile_to_quadkey x y zoom)
  /\ List.length (get_quadkeys_for_bbox deg2num north south east west zoom)
     = (Z.to_nat (fst (deg2num north east zoom) - fst (deg2num south west zoom) + 1)
        * Z.to_nat (snd (deg2num south west zoom) - snd (deg2num north east zoom) + 1))%nat.
Proof.
  rewrite get_quadkeys_for_bbox_flat_map. split.
  - intros q. rewrite in_flat_map. split.
    + intros (x & Hx & Hq). apply in_map_iff in Hq. destruct Hq as (y & <- & Hy).
      apply In_py_range in Hx, Hy. exists x, y. repeat split; lia.
    + intros (x & y & Hx & Hy & ->). exists x. split; [apply In_py_range; lia|].
      apply in_map_iff. exists y. split; [reflexivity|]. apply In_py_range. lia.
  - rewrite (@flat_map_length_const _ _ _
               (Z.to_nat (snd (deg2num south west zoom) - snd (deg2num north east zoom) + 1))).
    + rewrite py_range_length. f_equal. lia.
    + intros x. rewrite List.length_map, py_range_length. f_equal. lia.
Qed.
